(** * datxpy: the decoder of [reader.py] and the grid operations of [utils.py]

    A shallow embedding of [HDF5Reader.decode_group], [HDF5Reader.convert]
    and [HDF5Reader.void2dict] (reader.py), and of [fill_nodata],
    [remove_nodata] (utils.py), over a model of the Python values they
    handle.  Numbers that NumPy stores as float64 are binary64 floats
    ([PrimFloat.float]), so that not-a-number and the comparisons [==],
    [>=], [<] behave as they do in the program. *)

From Stdlib Require Import Ascii String.
From Stdlib Require Import ZArith List Bool Lia Floats.
Import ListNotations.

Set Implicit Arguments.
Set Warnings "-register-all".

(** ** Outcomes of a call: a value, or a raised exception *)

(** [InsufficientDataError] is the specification's name for a failure of
    the fill operation; no code of the repository raises it. *)

Inductive exn : Type :=
| TypeError
| IndexError
| ValueError
| UnicodeDecodeError
| InsufficientDataError.

Inductive result (A : Type) : Type :=
| Ok (a : A)
| Raise (e : exn).

Arguments Ok {A} a.
Arguments Raise {A} e.

Definition bind {A B : Type} (m : result A) (f : A -> result B) : result B :=
  match m with
  | Ok a => f a
  | Raise e => Raise e
  end.

Notation "x <- m ;; k" := (bind m (fun x => k))
  (at level 61, m at next level, right associativity).

Definition is_ok {A : Type} (m : result A) : bool :=
  match m with Ok _ => true | Raise _ => false end.

(** ** Python text and bytes *)

Module PyStr.

(** A Python [str] is a sequence of Unicode code points. *)
Definition codepoint := N.
Definition pystr := list codepoint.

(** The [str] whose characters are the (one-byte) characters of a literal. *)
Definition str (s : string) : pystr :=
  map N_of_ascii (list_ascii_of_string s).

Definition pystr_eqb (a b : pystr) : bool :=
  if list_eq_dec N.eq_dec a b then true else false.

(** A [bytes] object. *)
Definition pybytes := list N.

Definition bytes_of (s : string) : pybytes :=
  map N_of_ascii (list_ascii_of_string s).

Definition is_cont (b : N) : bool := ((128 <=? b) && (b <? 192))%N.

(** [bytes.decode()]: strict UTF-8.  Continuation bytes carry six bits;
    overlong forms, surrogates and code points above U+10FFFF are
    refused, as CPython's decoder refuses them. *)
Fixpoint utf8_decode (fuel : nat) (b : pybytes) : result pystr :=
  match fuel with
  | O => match b with [] => Ok [] | _ => Raise UnicodeDecodeError end
  | S fuel' =>
    match b with
    | [] => Ok []
    | b0 :: r0 =>
      if (b0 <? 128)%N then
        s <- utf8_decode fuel' r0 ;; Ok (b0 :: s)
      else if ((194 <=? b0) && (b0 <? 224))%N then
        match r0 with
        | b1 :: r1 =>
          if is_cont b1 then
            s <- utf8_decode fuel' r1 ;;
            Ok (((b0 - 192) * 64 + (b1 - 128))%N :: s)
          else Raise UnicodeDecodeError
        | _ => Raise UnicodeDecodeError
        end
      else if ((224 <=? b0) && (b0 <? 240))%N then
        match r0 with
        | b1 :: b2 :: r2 =>
          let c := ((b0 - 224) * 4096 + (b1 - 128) * 64 + (b2 - 128))%N in
          if is_cont b1 && is_cont b2 && (2048 <=? c)%N
             && negb ((55296 <=? c) && (c <? 57344))%N then
            s <- utf8_decode fuel' r2 ;; Ok (c :: s)
          else Raise UnicodeDecodeError
        | _ => Raise UnicodeDecodeError
        end
      else if ((240 <=? b0) && (b0 <? 245))%N then
        match r0 with
        | b1 :: b2 :: b3 :: r3 =>
          let c := ((b0 - 240) * 262144 + (b1 - 128) * 4096
                    + (b2 - 128) * 64 + (b3 - 128))%N in
          if is_cont b1 && is_cont b2 && is_cont b3
             && (65536 <=? c)%N && (c <? 1114112)%N then
            s <- utf8_decode fuel' r3 ;; Ok (c :: s)
          else Raise UnicodeDecodeError
        | _ => Raise UnicodeDecodeError
        end
      else Raise UnicodeDecodeError
    end
  end.

Definition bytes_decode (b : pybytes) : result pystr :=
  utf8_decode (length b) b.

End PyStr.
Export PyStr.

(** ** The Python values the decoder meets *)

(** What the decoder asks of a NumPy dtype: is it a sub-dtype of
    [np.number], is it ['object'], is it structured (a sub-dtype of
    [np.void], with its field names), or anything else (bool, fixed-width
    bytes or text, ...). *)
Inductive dtype : Type :=
| DNumber
| DObject
| DVoid (names : list pystr)
| DOther.

(** An [np.ndarray] is given by its dtype, its shape, and the items that
    [for x in g] yields: its elements when it has one axis, its sub-arrays
    along the first axis when it has more.  A 0-d array has shape [[]] and
    cannot be iterated.  [PVoid] is one record of a structured array
    ([np.void]), given by its field values in order.  A dataset carries
    its attributes and the outcome of reading its raw value: [None] when
    [g[()]] raises. *)
Inductive pyval : Type :=
| PInt (z : Z)
| PFloat (f : float)
| PStr (s : pystr)
| PBytes (b : pybytes)
| PList (l : list pyval)
| PTuple (l : list pyval)
| PDict (d : list (pystr * pyval))
| PNdarray (dt : dtype) (shape : list nat) (items : list pyval)
| PVoid (fields : list pyval)
| PGroup (children : list (pystr * pyval)) (attrs : list (pystr * pyval))
| PAttrs (items : list (pystr * pyval))
| PDataset (attrs : list (pystr * pyval)) (raw : option pyval).

(** ** Python dictionaries with [str] keys, in insertion order *)

Module Dict.

Definition dict := list (pystr * pyval).

Fixpoint get (k : pystr) (d : dict) : option pyval :=
  match d with
  | [] => None
  | (k', v) :: d' => if pystr_eqb k k' then Some v else get k d'
  end.

Definition mem (k : pystr) (d : dict) : bool :=
  match get k d with Some _ => true | None => false end.

(** [d[k] = v]: an existing key keeps its place, a new key goes last. *)
Fixpoint set (k : pystr) (v : pyval) (d : dict) : dict :=
  match d with
  | [] => [(k, v)]
  | (k', v') :: d' =>
    if pystr_eqb k k' then (k', v) :: d' else (k', v') :: set k v d'
  end.

(** [dict(pairs)] and the dict comprehension: entries are set in order. *)
Definition of_pairs (ps : list (pystr * pyval)) : dict :=
  fold_left (fun d kv => set (fst kv) (snd kv) d) ps [].

End Dict.

(** ** reader.py *)

Module Reader.

(** The sequence branch of [decode_group]:
    [g[0] if len(g) == 1 else g]. *)
Definition unwrap (seq : list pyval -> pyval) (l : list pyval) : pyval :=
  match l with
  | [x] => x
  | _ => seq l
  end.

(** What [for x in v] (and so [zip(names, v)]) yields, or the [TypeError]
    of a value that is not iterable. *)
Definition py_iter (v : pyval) : result (list pyval) :=
  match v with
  | PInt _ | PFloat _ => Raise TypeError
  | PStr s => Ok (map (fun c => PStr [c]) s)
  | PBytes b => Ok (map (fun c => PInt (Z.of_N c)) b)
  | PList l | PTuple l => Ok l
  | PDict d => Ok (map (fun kv => PStr (fst kv)) d)
  | PNdarray _ [] _ => Raise TypeError
  | PNdarray _ (_ :: _) items => Ok items
  | PVoid fields => Ok fields
  | PGroup children _ => Ok (map (fun kv => PStr (fst kv)) children)
  | PAttrs items => Ok (map (fun kv => PStr (fst kv)) items)
  | PDataset _ (Some (PNdarray _ (_ :: _) items)) => Ok items
  | PDataset _ _ => Raise TypeError
  end.

(** [dict(zip(names, v))]. *)
Definition dict_zip (names : list pystr) (v : pyval) : result pyval :=
  xs <- py_iter v ;; Ok (PDict (Dict.of_pairs (combine names xs))).

(** [decode_group], with [convert] (the loop over the items of a group or
    of an attribute set), the list comprehensions over an array's items
    and [void2dict] as local loops.  The equations below the definition
    give each of them back as the source writes it. *)
Fixpoint decode_group (g : pyval) : result pyval :=
  let convert :=
    fix convert (items : list (pystr * pyval)) (acc : Dict.dict)
      : result Dict.dict :=
      match items with
      | [] => Ok acc
      | (k, v) :: rest =>
        x <- decode_group v ;; convert rest (Dict.set k x acc)
      end in
  let decode_each :=
    fix decode_each (xs : list pyval) : result (list pyval) :=
      match xs with
      | [] => Ok []
      | x :: rest =>
        y <- decode_group x ;; ys <- decode_each rest ;; Ok (y :: ys)
      end in
  match g with
  | PGroup children attrs =>
    data <- convert children [] ;;
    match attrs with
    | [] => Ok (PDict data)
    | _ :: _ =>
      a <- convert attrs [] ;;
      Ok (PDict (Dict.set (str "attributes") (PDict a) data))
    end
  | PAttrs items =>
    data <- convert items [] ;; Ok (PDict data)
  | PDataset attrs raw =>
    a <- convert attrs [] ;;
    let data := [(str "attributes", PDict a)] in
    match raw with
    | Some v => Ok (PDict (Dict.set (str "values") v data))
    | None => Ok (PDict data)
    end
  | PNdarray dt shape items =>
    match dt, shape with
    | DNumber, [1%nat] =>
      match items with
      | x :: _ => Ok x
      | [] => Raise IndexError
      end
    | _, _ =>
      match dt with
      | DObject =>
        match shape with
        | [] => Raise TypeError
        | _ :: _ => ys <- decode_each items ;; Ok (unwrap PList ys)
        end
      | DVoid names =>
        match shape with
        | [] => Raise TypeError
        | _ :: _ =>
          ds <- (fix void2dict (records : list pyval)
                   : result (list pyval) :=
                   match records with
                   | [] => Ok []
                   | r :: rest =>
                     x <- decode_group r ;;
                     d <- dict_zip names x ;;
                     ds <- void2dict rest ;;
                     Ok (d :: ds)
                   end) items ;;
          Ok (unwrap PList ds)
        end
      | _ => Ok g
      end
    end
  | PVoid fields =>
    ys <- decode_each fields ;; Ok (unwrap PList ys)
  | PBytes b =>
    s <- bytes_decode b ;; Ok (PStr s)
  | PList l => Ok (unwrap PList l)
  | PTuple l => Ok (unwrap PTuple l)
  | _ => Ok g
  end.

End Reader.

Module ReaderLoops.
Import Reader.

(** [convert(g)]: the dict comprehension
    [{k: decode_group(v) for k, v in zip(g.keys(), g.values())}], entry by
    entry onto the dict built so far. *)
Fixpoint convert_onto (items : list (pystr * pyval)) (acc : Dict.dict)
  : result Dict.dict :=
  match items with
  | [] => Ok acc
  | (k, v) :: rest =>
    x <- decode_group v ;; convert_onto rest (Dict.set k x acc)
  end.

Definition convert (items : list (pystr * pyval)) : result Dict.dict :=
  convert_onto items [].

(** [[self.decode_group(x) for x in g]]. *)
Fixpoint decode_each (xs : list pyval) : result (list pyval) :=
  match xs with
  | [] => Ok []
  | x :: rest =>
    y <- decode_group x ;; ys <- decode_each rest ;; Ok (y :: ys)
  end.

(** [void2dict(obj)]:
    [[dict(zip(obj.dtype.names, self.decode_group(record))) for record in obj]]. *)
Definition void2dict (names : list pystr)
  : list pyval -> result (list pyval) :=
  fix void2dict (records : list pyval) : result (list pyval) :=
    match records with
    | [] => Ok []
    | r :: rest =>
      x <- decode_group r ;;
      d <- dict_zip names x ;;
      ds <- void2dict rest ;;
      Ok (d :: ds)
    end.

(** The items of an array as [for x in g] yields them. *)
Definition iter_array (shape : list nat) (items : list pyval)
  : result (list pyval) :=
  match shape with
  | [] => Raise TypeError
  | _ :: _ => Ok items
  end.

End ReaderLoops.

(** ** Paths into a container and into its decoded tree *)

Module Tree.


(** [v[k1][k2]...] on decoded dictionaries. *)
Fixpoint lookup_path (path : list pystr) (v : pyval) : option pyval :=
  match path with
  | [] => Some v
  | k :: p =>
    match v with
    | PDict d =>
      match Dict.get k d with
      | Some v' => lookup_path p v'
      | None => None
      end
    | _ => None
    end
  end.

(** [seq[i][k]] on a decoded list of dictionaries. *)
Definition item_field (i : nat) (k : pystr) (v : pyval) : option pyval :=
  match v with
  | PList l =>
    match nth_error l i with
    | Some (PDict d) => Dict.get k d
    | _ => None
    end
  | _ => None
  end.

Definition has_key (k : pystr) (v : pyval) : bool :=
  match v with PDict d => Dict.mem k d | _ => false end.

Definition key_of (kv : pystr * pyval) : pystr := fst kv.

Definition names_key (k : pystr) (items : list (pystr * pyval)) : bool :=
  existsb (fun kv => pystr_eqb k (key_of kv)) items.

End Tree.

(** ** The records of the test of [void2dict], and one-field records *)

Module Samples.

(** [np.array([(1, 2.0), (3, 4.0)], dtype=[("field1","i4"),("field2","f8")])]. *)
Definition two_fields : pyval :=
  PNdarray (DVoid [str "field1"; str "field2"]) [2%nat]
    [PVoid [PInt 1; PFloat 2%float]; PVoid [PInt 3; PFloat 4%float]].

(** [np.array([(1,), (3,)], dtype=[("f", "i4")])]. *)
Definition one_int_field : pyval :=
  PNdarray (DVoid [str "f"]) [2%nat] [PVoid [PInt 1]; PVoid [PInt 3]].

(** [np.array([(b"hello",), (b"world",)], dtype=[("s", "S5")])]. *)
Definition one_bytes_field : pyval :=
  PNdarray (DVoid [str "s"]) [2%nat]
    [PVoid [PBytes (bytes_of "hello")]; PVoid [PBytes (bytes_of "world")]].

(** [np.array([[42]])], of shape (1, 1), and [np.array([42])]. *)
Definition row42 : pyval := PNdarray DNumber [1%nat] [PInt 42].

End Samples.

(** ** NumPy arrays of two axes, held in a store *)

Module Np.

Definition grid (A : Type) := list (list A).

(** A 2-D array of an integer dtype or of float64. *)
Inductive ndarray : Type :=
| IntArr (a : grid Z)
| FloatArr (a : grid float).

(** An integer as float64, rounded to nearest even. *)
Definition of_int (z : Z) : float :=
  SF2Prim (binary_normalize prec emax z 0 false).

(** The elements of an array as float64 ([astype(float)]). *)
Definition as_float (a : ndarray) : grid float :=
  match a with
  | IntArr a => map (map of_int) a
  | FloatArr a => a
  end.

Definition shape {A : Type} (a : grid A) : nat * nat :=
  (length a, match a with [] => 0%nat | r :: _ => length r end).

Definition shape_eqb (s t : nat * nat) : bool :=
  Nat.eqb (fst s) (fst t) && Nat.eqb (snd s) (snd t).

(** [a] has [M] rows of [N] elements each. *)
Definition rect {A : Type} (M N : nat) (a : grid A) : Prop :=
  length a = M /\ Forall (fun r => length r = N) a.

Definition cell {A : Type} (a : grid A) (i j : nat) : option A :=
  match nth_error a i with
  | Some r => nth_error r j
  | None => None
  end.

(** Row-major flattening ([ravel], and the order of boolean indexing). *)
Definition ravel {A : Type} (a : grid A) : list A := concat a.

Definition map2 {A B C : Type} (f : A -> B -> C) (xs : list A) (ys : list B)
  : list C :=
  map (fun p => f (fst p) (snd p)) (combine xs ys).

(** The elements of [l] where the mask holds, in order. *)
Fixpoint select {A : Type} (m : list bool) (l : list A) : list A :=
  match m, l with
  | b :: m', x :: l' => if b then x :: select m' l' else select m' l'
  | _, _ => []
  end.

(** The store: every array object lives at a reference; a name of the
    program is bound to a reference, and an assignment through an index
    changes the object in place. *)
Definition ref := nat.
Definition heap := list ndarray.
Definition M (A : Type) := heap -> result (A * heap).

Definition ret {A : Type} (a : A) : M A := fun h => Ok (a, h).

Definition raise {A : Type} (e : exn) : M A := fun _ => Raise e.

Definition bindM {A B : Type} (m : M A) (f : A -> M B) : M B :=
  fun h =>
    match m h with
    | Ok (a, h') => f a h'
    | Raise e => Raise e
    end.

Declare Scope heap_scope.
Delimit Scope heap_scope with heap.
Notation "x <- m ;; k" := (bindM m (fun x => k))
  (at level 61, m at next level, right associativity) : heap_scope.

Local Open Scope heap_scope.

Definition load (r : ref) : M ndarray :=
  fun h =>
    match nth_error h r with
    | Some a => Ok (a, h)
    | None => Raise ValueError
    end.

Definition alloc (a : ndarray) : M ref :=
  fun h => Ok (length h, h ++ [a]).

Fixpoint update (r : nat) (a : ndarray) (h : heap) : heap :=
  match h, r with
  | [], _ => []
  | _ :: h', O => a :: h'
  | b :: h', S r' => b :: update r' a h'
  end.

Definition store (r : ref) (a : ndarray) : M unit :=
  fun h => Ok (tt, update r a h).

(** [np.copy(Z)]: a new array with the elements and dtype of [Z]. *)
Definition copy (r : ref) : M ref :=
  a <- load r ;; alloc a.

(** [Z.astype(float)]: a new float64 array. *)
Definition astype_float (r : ref) : M ref :=
  a <- load r ;; alloc (FloatArr (as_float a)).

(** [z >= thr], [Z == thr], [np.isnan(Z)], [~m]: boolean masks. *)
Definition greater_equal (r : ref) (thr : float) : M (grid bool) :=
  a <- load r ;; ret (map (map (fun z => PrimFloat.leb thr z)) (as_float a)).

Definition equal (r : ref) (thr : float) : M (grid bool) :=
  a <- load r ;; ret (map (map (fun z => PrimFloat.eqb z thr)) (as_float a)).

Definition isnan (r : ref) : M (grid bool) :=
  a <- load r ;; ret (map (map PrimFloat.is_nan) (as_float a)).

Definition invert (m : grid bool) : grid bool := map (map negb) m.

(** [z[m] = v] for a float [v]: in place, on a float64 array whose shape
    is the mask's.  (Storing not-a-number into an integer array raises;
    the program only does it after [astype(float)].) *)
Definition setitem_mask (r : ref) (m : grid bool) (v : float) : M unit :=
  a <- load r ;;
  match a with
  | IntArr _ => raise ValueError
  | FloatArr a =>
    if shape_eqb (shape m) (shape a) then
      store r (FloatArr (map2 (map2 (fun b z => if b : bool then v else z)) m a))
    else raise IndexError
  end.

(** [X[m]]: the elements under the mask, row-major, here already as
    float64 (the conversion that [column_stack] and [griddata] apply to
    them commutes with the selection). *)
Definition getitem_mask (r : ref) (m : grid bool) : M (list float) :=
  a <- load r ;;
  if shape_eqb (shape m) (shape (as_float a)) then
    ret (select (ravel m) (ravel (as_float a)))
  else raise IndexError.

Definition point := (float * float)%type.

(** [np.column_stack((xs, ys))]: the rows [(x, y)]. *)
Definition column_stack (xs ys : list float) : list point := combine xs ys.

End Np.

(** ** Nearest-neighbour interpolation *)

Module Griddata.
Import Np.
Local Open Scope heap_scope.

(** Euclidean distance in the (X, Y) plane, in float64 arithmetic. *)
Definition dist (q p : point) : float :=
  let dx := (fst q - fst p)%float in
  let dy := (snd q - snd p)%float in
  PrimFloat.sqrt (dx * dx + dy * dy)%float.

(** [p] is strictly nearer to [q] than [p'] is. *)
Definition strictly_nearer (q p p' : point) : bool :=
  PrimFloat.ltb (dist q p) (dist q p').

(** The value of the sample nearest to [q] among [best] and [rest]; a
    later sample replaces the best one only when it is strictly nearer,
    so ties go to the earlier sample. *)
Fixpoint nearest_from (q : point) (best : point * float)
  (rest : list (point * float)) : float :=
  match rest with
  | [] => snd best
  | s :: rest' =>
    if strictly_nearer q (fst s) (fst best)
    then nearest_from q s rest'
    else nearest_from q best rest'
  end.

(** The array the library builds when it is given no sample point: every
    cell is not-a-number. *)
Definition all_nan (xf yf : grid float) : grid float :=
  map2 (map2 (fun _ _ : float => nan)) xf yf.

(** Modelled from the spec: [scipy.interpolate.griddata(points, values,
    (X, Y), method='nearest')] is a library call whose code is not part
    of the repository.  Following section 4.2 of the specification, the
    output at each grid point is the value of the closest sample point by
    Euclidean distance in (X, Y) space, and the result is a new array of
    the shape of the grids.  The specification gives the failure on an
    empty sample set to the fill operation, which has no such check; the
    library call itself raises nothing there: with no sample point it
    returns the array of the shape of the grids with not-a-number in
    every cell. *)
Definition griddata_nearest (points : list point) (values : list float)
  (X Y : ref) : M ref :=
  xa <- load X ;;
  ya <- load Y ;;
  match combine points values with
  | [] => alloc (FloatArr (all_nan (as_float xa) (as_float ya)))
  | s :: rest =>
    alloc (FloatArr
      (map2 (map2 (fun x y => nearest_from (x, y) s rest))
            (as_float xa) (as_float ya)))
  end.

End Griddata.

(** ** utils.py *)

Module Utils.
Import Np Griddata.
Local Open Scope heap_scope.

(** [fill_nodata(X, Y, Z, thr)]; the parameter [Z] is rebound to the
    float64 copy, which is the array the mask assignment changes. *)
Definition fill_nodata (X Y Z : ref) (thr : float) : M ref :=
  Z <- astype_float Z ;;
  m <- equal Z thr ;;
  _ <- setitem_mask Z m nan ;;
  n <- isnan Z ;;
  let mask := invert n in
  xs <- getitem_mask X mask ;;
  ys <- getitem_mask Y mask ;;
  let points := column_stack xs ys in
  values <- getitem_mask Z mask ;;
  griddata_nearest points values X Y.

(** [remove_nodata(Z, thr)]. *)
Definition remove_nodata (Z : ref) (thr : float) : M ref :=
  z <- copy Z ;;
  z <- astype_float z ;;
  m <- greater_equal z thr ;;
  _ <- setitem_mask z m nan ;;
  ret z.

(** What the two mask assignments leave in a cell that held [z]:
    [Z[Z == thr] = np.nan] in [fill_nodata], [z[z >= thr] = np.nan] in
    [remove_nodata]. *)
Definition mark_eq (thr z : float) : float :=
  if PrimFloat.eqb z thr then nan else z.

Definition mark_ge (thr z : float) : float :=
  if PrimFloat.leb thr z then nan else z.

(** A cell the fill operation interpolates from: once the cells equal to
    [thr] are set to not-a-number, the cell is not not-a-number. *)
Definition valid (thr z : float) : bool :=
  negb (PrimFloat.is_nan (mark_eq thr z)).

(** The sample points and values [fill_nodata] hands to [griddata]:
    [column_stack((X[mask], Y[mask]))] paired with [Z[mask]]. *)
Definition samples (xf yf zf : grid float) (thr : float)
  : list (point * float) :=
  let zm := map (map (mark_eq thr)) zf in
  let mask := invert (map (map PrimFloat.is_nan) zm) in
  combine (column_stack (select (ravel mask) (ravel xf))
                        (select (ravel mask) (ravel yf)))
          (select (ravel mask) (ravel zm)).

(** The array [griddata] builds from the samples. *)
Definition interpolated (xf yf : grid float) (s : point * float)
  (rest : list (point * float)) : grid float :=
  map2 (map2 (fun x y => nearest_from (x, y) s rest)) xf yf.

(** The array [fill_nodata] returns for a list of samples. *)
Definition filled (xf yf : grid float) (sam : list (point * float))
  : grid float :=
  match sam with
  | [] => all_nan xf yf
  | s :: rest => interpolated xf yf s rest
  end.

End Utils.

(** ** The grids of test_utils.py *)

Module TestGrids.
Import Np.

Definition X : ndarray :=
  IntArr (repeat [0; 1; 2; 3; 4]%Z 5).

Definition Y : ndarray :=
  IntArr (map (fun y => repeat y 5) [0; 1; 2; 3; 4]%Z).

Definition Zt : ndarray :=
  IntArr [[1; 2; 3; 4; 5]; [6; 7; 8; 9; 10]; [11; 12; -999; 14; 15];
          [16; 17; 18; -999; 20]; [21; 22; 23; 24; 25]]%Z.

Definition threshold : float := (-999)%float.

Definition h0 : heap := [X; Y; Zt].

(** A 1 x 2 grid with one missing cell and one valid cell. *)
Definition h_one : heap :=
  [IntArr [[0; 1]]%Z; IntArr [[0; 0]]%Z; IntArr [[-999; 7]]%Z].


End TestGrids.

(** ** reader.py: the structure listing *)

Module Listing.

Section Listing.

(** The texts of [item.shape] and [item.dtype] of a dataset, which h5py
    keeps with the dataset. *)
Variables shape_text dtype_text : pyval -> pystr.

(** [" " * indent]. *)
Definition spaces (indent : nat) : pystr := repeat 32%N indent.

Definition group_line (indent : nat) (key : pystr) : pystr :=
  spaces indent ++ str "[Group] " ++ key.

Definition dataset_line (indent : nat) (key : pystr) (item : pyval) : pystr :=
  spaces indent ++ str "[Dataset] " ++ key ++ str " - Shape: "
  ++ shape_text item ++ str ", Dtype: " ++ dtype_text item.

(** [hdf5_structure(g, indent)], as the lines it prints, in order.  [g]
    is a group at every call of reader.py ([show_struct] passes the file,
    the recursion passes a child that is a group); children that are
    neither groups nor datasets print nothing. *)
Fixpoint hdf5_structure (g : pyval) (indent : nat) : list pystr :=
  match g with
  | PGroup children _ =>
    (fix each (items : list (pystr * pyval)) : list pystr :=
       match items with
       | [] => []
       | (key, item) :: rest =>
         match item with
         | PGroup _ _ =>
           group_line indent key :: hdf5_structure item (indent + 4)
         | PDataset _ _ => [dataset_line indent key item]
         | _ => []
         end ++ each rest
       end) children
  | _ => []
  end.

(** [show_struct()] on an opened file. *)
Definition show_struct (f : pyval) : list pystr :=
  str "Structure of the file:" :: hdf5_structure f 0.

End Listing.

(** The groups and datasets below a group, through groups only. *)
Fixpoint nodes_below (g : pyval) : nat :=
  match g with
  | PGroup children _ =>
    (fix each (items : list (pystr * pyval)) : nat :=
       match items with
       | [] => 0
       | (_, item) :: rest =>
         match item with
         | PGroup _ _ => S (nodes_below item)
         | PDataset _ _ => 1
         | _ => 0
         end + each rest
       end) children
  | _ => 0
  end.

End Listing.

Module Safe.

Definition nonempty {A : Type} (l : list A) : bool :=
  match l with [] => false | _ :: _ => true end.

(** A value [decode_group] returns as it is. *)
Definition plain (x : pyval) : Prop := Reader.decode_group x = Ok x.

End Safe.

(** Induction on Python values through the lists they hold. *)
Module PyvalInd.

Section PyvalInd.

Variable P : pyval -> Prop.

Definition all_values (kvs : list (pystr * pyval)) : Prop :=
  Forall (fun kv => P (snd kv)) kvs.

Hypothesis HInt : forall z, P (PInt z).
Hypothesis HFloat : forall f, P (PFloat f).
Hypothesis HStr : forall s, P (PStr s).
Hypothesis HBytes : forall b, P (PBytes b).
Hypothesis HList : forall l, Forall P l -> P (PList l).
Hypothesis HTuple : forall l, Forall P l -> P (PTuple l).
Hypothesis HDict : forall d, all_values d -> P (PDict d).
Hypothesis HNdarray : forall dt shape items,
  Forall P items -> P (PNdarray dt shape items).
Hypothesis HVoid : forall fields, Forall P fields -> P (PVoid fields).
Hypothesis HGroup : forall children attrs,
  all_values children -> all_values attrs -> P (PGroup children attrs).
Hypothesis HAttrs : forall items, all_values items -> P (PAttrs items).
Hypothesis HDataset : forall attrs raw,
  all_values attrs -> P (PDataset attrs raw).

Fixpoint pyval_nested_ind (g : pyval) : P g :=
  let each :=
    fix each (l : list pyval) : Forall P l :=
      match l with
      | [] => Forall_nil P
      | x :: l' => @Forall_cons _ P x l' (pyval_nested_ind x) (each l')
      end in
  let each_value :=
    fix each_value (kvs : list (pystr * pyval)) : all_values kvs :=
      match kvs with
      | [] => Forall_nil _
      | kv :: kvs' =>
        @Forall_cons _ (fun kv => P (snd kv)) kv kvs'
          (pyval_nested_ind (snd kv)) (each_value kvs')
      end in
  match g with
  | PInt z => HInt z
  | PFloat f => HFloat f
  | PStr s => HStr s
  | PBytes b => HBytes b
  | PList l => @HList l (each l)
  | PTuple l => @HTuple l (each l)
  | PDict d => @HDict d (each_value d)
  | PNdarray dt shape items => @HNdarray dt shape items (each items)
  | PVoid fields => @HVoid fields (each fields)
  | PGroup children attrs =>
    @HGroup children attrs (each_value children) (each_value attrs)
  | PAttrs items => @HAttrs items (each_value items)
  | PDataset attrs raw => @HDataset attrs raw (each_value attrs)
  end.

End PyvalInd.

End PyvalInd.

(** ** utils.py: the plane and its removal *)

Module Offset.
Import Np.
Local Open Scope heap_scope.

Definition params := (float * float * float)%type.

(** An operation on two 1-D arrays under NumPy's broadcasting: the
    lengths agree, or one operand has length 1. *)
Definition broadcast2 (f : float -> float -> float) (xs ys : list float)
  : result (list float) :=
  if Nat.eqb (length xs) (length ys) then Ok (map2 f xs ys)
  else
    match xs, ys with
    | [x], _ => Ok (map (f x) ys)
    | _, [y] => Ok (map (fun x => f x y) xs)
    | _, _ => Raise ValueError
    end.

(** [plane(xy, a, b, c)]: [a * x + b * y + c] on the flattened grids. *)
Definition plane (xy : list float * list float) (a b c : float)
  : result (list float) :=
  let (x, y) := xy in
  bind (broadcast2 PrimFloat.add
          (map (fun v => PrimFloat.mul a v) x)
          (map (fun v => PrimFloat.mul b v) y))
       (fun s => Ok (map (fun v => PrimFloat.add v c) s)).

Fixpoint chunks {A : Type} (rows cols : nat) (l : list A) : grid A :=
  match rows with
  | O => []
  | S rows' => firstn cols l :: chunks rows' cols (skipn cols l)
  end.

(** [a.reshape(ny, nx)] of a 1-D array: the sizes must agree. *)
Definition reshape {A : Type} (rows cols : nat) (l : list A)
  : result (grid A) :=
  if Nat.eqb (length l) (rows * cols) then Ok (chunks rows cols l)
  else Raise ValueError.

Definition lift {A : Type} (r : result A) : M A :=
  fun h => match r with Ok a => Ok (a, h) | Raise e => Raise e end.

(** The residual grid: [Z - (a * X + b * Y + c)], cell by cell. *)
Definition residual (a b c : float) (xf yf zf : grid float) : grid float :=
  map2 (map2 PrimFloat.sub) zf
    (map (map (fun v => PrimFloat.add v c))
       (map2 (map2 PrimFloat.add)
          (map (map (fun v => PrimFloat.mul a v)) xf)
          (map (map (fun v => PrimFloat.mul b v)) yf))).

Section RemoveOffset.

(** [scipy.optimize.curve_fit(f, xdata, ydata)], a library call: its
    optimal parameters, or the exception it raises. *)
Variable curve_fit :
  (list float * list float -> float -> float -> float -> result (list float)) ->
  list float * list float -> list float -> result params.

(** [remove_offset(X, Y, Z)]. *)
Definition remove_offset (X Y Z : ref) : M (params * ref) :=
  xa <- load X ;;
  ya <- load Y ;;
  za <- load Z ;;
  let (ny, nx) := shape (as_float za) in
  let x_data := ravel (as_float xa) in
  let y_data := ravel (as_float ya) in
  let z_data := ravel (as_float za) in
  p <- lift (curve_fit plane (x_data, y_data) z_data) ;;
  let '(a, b, c) := p in
  fitted <- lift (plane (x_data, y_data) a b c) ;;
  z_data <- lift (broadcast2 PrimFloat.sub z_data fitted) ;;
  res <- lift (reshape ny nx z_data) ;;
  out <- alloc (FloatArr res) ;;
  ret (p, out).

End RemoveOffset.

End Offset.

(** * Properties of the decoder *)

Module DictFacts.
Import Dict.

Lemma pystr_eqb_refl (k : pystr) : pystr_eqb k k = true.
Proof.
  unfold pystr_eqb. destruct (list_eq_dec N.eq_dec k k); congruence.
Qed.

Lemma pystr_eqb_eq (a b : pystr) : pystr_eqb a b = true <-> a = b.
Proof.
  unfold pystr_eqb. destruct (list_eq_dec N.eq_dec a b); split; congruence.
Qed.

Lemma pystr_eqb_neq (a b : pystr) : pystr_eqb a b = false <-> a <> b.
Proof.
  unfold pystr_eqb. destruct (list_eq_dec N.eq_dec a b); split; congruence.
Qed.

Lemma get_set_same (k : pystr) (v : pyval) (d : dict) :
  get k (set k v d) = Some v.
Proof.
  induction d as [|[k' v'] d IH]; simpl.
  - now rewrite pystr_eqb_refl.
  - destruct (pystr_eqb k k') eqn:E; simpl; rewrite E; auto.
Qed.

Lemma get_set_other (k k' : pystr) (v : pyval) (d : dict) :
  k <> k' -> get k (set k' v d) = get k d.
Proof.
  intros Hne. induction d as [|[k2 v2] d IH]; simpl.
  - apply pystr_eqb_neq in Hne. now rewrite Hne.
  - destruct (pystr_eqb k' k2) eqn:E; simpl.
    + apply pystr_eqb_eq in E. subst k2.
      apply pystr_eqb_neq in Hne. now rewrite Hne.
    + now rewrite IH.
Qed.

Lemma mem_set (k k' : pystr) (v : pyval) (d : dict) :
  mem k (set k' v d) = pystr_eqb k k' || mem k d.
Proof.
  unfold mem. destruct (pystr_eqb k k') eqn:E; simpl.
  - apply pystr_eqb_eq in E. subst k'. now rewrite get_set_same.
  - apply pystr_eqb_neq in E. now rewrite get_set_other.
Qed.

End DictFacts.

Module ReaderFacts.
Import Reader ReaderLoops Tree Samples DictFacts.

(** *** The branches of [decode_group], as reader.py writes them *)

Lemma decode_group_attrs (items : list (pystr * pyval)) :
  decode_group (PAttrs items) = (data <- convert items ;; Ok (PDict data)).
Proof. reflexivity. Qed.

Lemma decode_group_group (children attrs : list (pystr * pyval)) :
  decode_group (PGroup children attrs) =
  (data <- convert children ;;
   if (length attrs =? 0)%nat then Ok (PDict data)
   else a <- decode_group (PAttrs attrs) ;;
        Ok (PDict (Dict.set (str "attributes") a data))).
Proof.
  rewrite decode_group_attrs. destruct attrs as [|kv attrs].
  - reflexivity.
  - change (decode_group (PGroup children (kv :: attrs)))
      with (data <- convert children ;;
            a <- convert (kv :: attrs) ;;
            Ok (PDict (Dict.set (str "attributes") (PDict a) data))).
    destruct (convert children) as [data|e]; simpl; [|reflexivity].
    destruct (convert (kv :: attrs)); reflexivity.
Qed.

Lemma decode_group_dataset (attrs : list (pystr * pyval)) (raw : option pyval) :
  decode_group (PDataset attrs raw) =
  (a <- decode_group (PAttrs attrs) ;;
   let data := [(str "attributes", a)] in
   match raw with
   | Some v => Ok (PDict (Dict.set (str "values") v data))
   | None => Ok (PDict data)
   end).
Proof.
  rewrite decode_group_attrs.
  change (decode_group (PDataset attrs raw))
    with (a <- convert attrs ;;
          let data := [(str "attributes", PDict a)] in
          match raw with
          | Some v => Ok (PDict (Dict.set (str "values") v data))
          | None => Ok (PDict data)
          end).
  destruct (convert attrs); reflexivity.
Qed.

Lemma decode_group_ndarray (dt : dtype) (shape : list nat) (items : list pyval) :
  decode_group (PNdarray dt shape items) =
  match dt, shape with
  | DNumber, [1%nat] =>
    match items with x :: _ => Ok x | [] => Raise IndexError end
  | DObject, _ =>
    xs <- iter_array shape items ;;
    ys <- decode_each xs ;;
    decode_group (PList ys)
  | DVoid names, _ =>
    xs <- iter_array shape items ;;
    ds <- void2dict names xs ;;
    decode_group (PList ds)
  | _, _ => Ok (PNdarray dt shape items)
  end.
Proof.
  destruct dt as [| |names|]; destruct shape as [|n shape]; reflexivity.
Qed.

Lemma decode_group_void (fields : list pyval) :
  decode_group (PVoid fields) =
  (ys <- decode_each fields ;; decode_group (PList ys)).
Proof.
  change (decode_group (PVoid fields))
    with (ys <- decode_each fields ;; Ok (unwrap PList ys)).
  destruct (decode_each fields); reflexivity.
Qed.

Lemma decode_group_bytes (b : pybytes) :
  decode_group (PBytes b) = (s <- bytes_decode b ;; Ok (PStr s)).
Proof. reflexivity. Qed.

Lemma decode_group_list (l : list pyval) :
  decode_group (PList l) = Ok (match l with [x] => x | _ => PList l end).
Proof. reflexivity. Qed.

Lemma decode_group_tuple (l : list pyval) :
  decode_group (PTuple l) = Ok (match l with [x] => x | _ => PTuple l end).
Proof. reflexivity. Qed.

(** *** Keys of a converted mapping *)

Lemma convert_onto_mem (k : pystr) (items : list (pystr * pyval)) :
  forall acc d,
    convert_onto items acc = Ok d ->
    Dict.mem k d = Dict.mem k acc || names_key k items.
Proof.
  induction items as [|[k' v] items IH]; intros acc d H; simpl in *.
  - inversion H. now rewrite orb_false_r.
  - destruct (decode_group v) as [x|e]; simpl in H; [|discriminate].
    rewrite (IH _ _ H), mem_set. unfold key_of. simpl.
    now rewrite orb_assoc, (orb_comm (pystr_eqb k k')).
Qed.

Lemma convert_mem (k : pystr) (items : list (pystr * pyval)) (d : Dict.dict) :
  convert items = Ok d -> Dict.mem k d = names_key k items.
Proof. intros H. now rewrite (convert_onto_mem k _ _ H). Qed.

Lemma convert_onto_get_other (k : pystr) (items : list (pystr * pyval)) :
  forall acc d,
    convert_onto items acc = Ok d ->
    ~ In k (map fst items) ->
    Dict.get k d = Dict.get k acc.
Proof.
  induction items as [|[k' v] items IH]; intros acc d H Hk; simpl in *.
  - now inversion H.
  - destruct (decode_group v) as [x|e]; simpl in H; [|discriminate].
    rewrite (IH _ _ H) by tauto. apply get_set_other. intros ->. tauto.
Qed.

(** With distinct names, every item is found under its name, decoded. *)
Lemma convert_onto_get (k : pystr) (v x : pyval)
  (items : list (pystr * pyval)) :
  forall acc d,
    convert_onto items acc = Ok d ->
    In (k, v) items -> NoDup (map fst items) ->
    decode_group v = Ok x ->
    Dict.get k d = Some x.
Proof.
  induction items as [|[k' v'] items IH]; intros acc d H Hin Hnd Hv;
    simpl in *; [contradiction|].
  inversion Hnd as [|? ? Hk' Hnd']; subst.
  destruct (decode_group v') as [x'|e] eqn:Hv'; simpl in H; [|discriminate].
  destruct Hin as [Heq|Hin].
  - inversion Heq; subst k' v'.
    rewrite (@convert_onto_get_other k items _ _ H Hk'), get_set_same.
    congruence.
  - now apply (IH _ _ H).
Qed.


End ReaderFacts.

Module ReaderSpec.
Import Reader ReaderLoops Tree Samples DictFacts ReaderFacts.

(** A numeric array whose shape is not (1,) is returned as it is. *)
Lemma decode_numeric_other_shape (shape : list nat) (items : list pyval) :
  shape <> [1%nat] ->
  decode_group (PNdarray DNumber shape items) = Ok (PNdarray DNumber shape items).
Proof.
  intros H. rewrite decode_group_ndarray.
  destruct shape as [|[|[|n]] [|m shape]]; auto; congruence.
Qed.

(** The raw value of a dataset is stored under ['values'] as it was read:
    [decode_group] is not applied to it. *)
Lemma decode_dataset_value_kept (v : pyval) :
  decode_group (PDataset [] (Some v)) =
  Ok (PDict [(str "attributes", PDict []); (str "values", v)]).
Proof. reflexivity. Qed.




(** C6: when the attributes of a dataset decode, the dataset decodes
    whatever the outcome of reading its raw value, to a dictionary that
    has the key ['attributes'] (the decoded attributes), and that has the
    key ['values'] exactly when the read succeeded; a failed read is not
    raised to the caller. *)
Theorem decode_dataset_keys (attrs : list (pystr * pyval)) (raw : option pyval)
  (a : pyval) :
  decode_group (PAttrs attrs) = Ok a ->
  exists d,
    decode_group (PDataset attrs raw) = Ok (PDict d) /\
    Dict.get (str "attributes") d = Some a /\
    (Dict.mem (str "values") d = true <-> raw <> None) /\
    (raw = None -> d = [(str "attributes", a)]).
Proof.
  intros Ha. rewrite decode_group_dataset, Ha. cbn [bind].
  destruct raw as [v|].
  - exists [(str "attributes", a); (str "values", v)].
    split; [reflexivity|]. split; [reflexivity|]. split.
    + split; [discriminate | reflexivity].
    + discriminate.
  - exists [(str "attributes", a)].
    split; [reflexivity|]. split; [reflexivity|]. split.
    + split; [discriminate | congruence].
    + reflexivity.
Qed.

(** A dataset without attributes whose raw value cannot be read decodes
    to [{'attributes': {}}]. *)
Lemma decode_dataset_keys_witness :
  exists d,
    decode_group (PDataset [] None) = Ok (PDict d) /\
    Dict.get (str "attributes") d = Some (PDict []) /\
    (Dict.mem (str "values") d = true <-> @None pyval <> None) /\
    (@None pyval = None -> d = [(str "attributes", PDict [])]).
Proof. apply (@decode_dataset_keys [] None (PDict [])). reflexivity. Defined.

(** The decoded attributes are the only part of a dataset whose decoding
    can raise. *)
Lemma decode_dataset_raises_only_from_attrs (attrs : list (pystr * pyval))
  (raw : option pyval) :
  is_ok (decode_group (PDataset attrs raw)) = is_ok (decode_group (PAttrs attrs)).
Proof.
  rewrite decode_group_dataset.
  destruct (decode_group (PAttrs attrs)); [destruct raw|]; reflexivity.
Qed.

(** C7: the structured array of the records (1, 2.0) and (3, 4.0) with
    fields field1 and field2 decodes to a list of two dictionaries keyed
    by the field names, with [result[0]["field1"] = 1] and
    [result[1]["field2"] = 4.0]. *)
Theorem decode_two_field_records :
  let result :=
    PList [PDict [(str "field1", PInt 1); (str "field2", PFloat 2%float)];
           PDict [(str "field1", PInt 3); (str "field2", PFloat 4%float)]] in
  decode_group two_fields = Ok result /\
  void2dict [str "field1"; str "field2"]
    [PVoid [PInt 1; PFloat 2%float]; PVoid [PInt 3; PFloat 4%float]]
  = Ok [PDict [(str "field1", PInt 1); (str "field2", PFloat 2%float)];
        PDict [(str "field1", PInt 3); (str "field2", PFloat 4%float)]] /\
  item_field 0 (str "field1") result = Some (PInt 1) /\
  item_field 1 (str "field2") result = Some (PFloat 4%float).
Proof. repeat split; vm_compute; reflexivity. Qed.

(** C8: a list or tuple of length 1 decodes to its sole element, and one
    of length 2 or more decodes to itself. *)
Theorem decode_sequence_unwrap (l : list pyval) :
  (length l = 1%nat ->
   exists x, l = [x] /\
     decode_group (PList l) = Ok x /\ decode_group (PTuple l) = Ok x) /\
  (2 <= length l ->
   decode_group (PList l) = Ok (PList l) /\
   decode_group (PTuple l) = Ok (PTuple l)).
Proof.
  split.
  - destruct l as [|x [|y l]]; simpl; intros H; try discriminate.
    exists x. repeat split.
  - destruct l as [|x [|y l]]; simpl; intros H; try lia.
    split; reflexivity.
Qed.

Lemma decode_sequence_unwrap_witness :
  (exists x, [PInt 7] = [x] /\
     decode_group (PList [PInt 7]) = Ok x /\
     decode_group (PTuple [PInt 7]) = Ok x) /\
  decode_group (PList [PInt 1; PInt 2]) = Ok (PList [PInt 1; PInt 2]) /\
  decode_group (PTuple [PInt 1; PInt 2]) = Ok (PTuple [PInt 1; PInt 2]).
Proof.
  split.
  - apply (proj1 (decode_sequence_unwrap [PInt 7])). reflexivity.
  - apply (proj2 (decode_sequence_unwrap [PInt 1; PInt 2])). simpl. lia.
Defined.

(** One record with a single field decodes to the bare field value. *)
Lemma decode_one_field_record (x : pyval) :
  decode_group (PVoid [x]) = decode_group x.
Proof.
  rewrite decode_group_void. cbn [decode_each].
  destruct (decode_group x); reflexivity.
Qed.

(** C9: a structured array whose records have exactly one numeric field
    does not decode to a list of one-key dictionaries.  Each record
    decodes to the bare number, which [zip] cannot iterate: the call
    raises [TypeError].  With one bytes field, the record decodes to the
    whole text and [zip] pairs the field name with its first character. *)
Theorem decode_one_field_records (name : pystr) (z : Z) (n : nat)
  (rest : list pyval) :
  decode_group (PVoid [PInt z]) = Ok (PInt z) /\
  dict_zip [name] (PInt z) = Raise TypeError /\
  decode_group (PNdarray (DVoid [name]) [S n] (PVoid [PInt z] :: rest))
  = Raise TypeError /\
  decode_group one_int_field = Raise TypeError /\
  decode_group (PVoid [PBytes (bytes_of "hello")]) = Ok (PStr (str "hello")) /\
  decode_group one_bytes_field
  = Ok (PList [PDict [(str "s", PStr (str "h"))];
               PDict [(str "s", PStr (str "w"))]]).
Proof.
  repeat split; try reflexivity.
Qed.

(** C10, as stated, fails: a group with no attribute and a child named
    ['attributes'] decodes to a mapping that has the key ['attributes']. *)
Lemma decode_group_child_named_attributes :
  decode_group (PGroup [(str "attributes", PDataset [] None)] [])
  = Ok (PDict [(str "attributes", PDict [(str "attributes", PDict [])])]) /\
  has_key (str "attributes")
    (PDict [(str "attributes", PDict [(str "attributes", PDict [])])]) = true.
Proof. split; reflexivity. Qed.

(** C10, amended: for a source group none of whose children is named
    ['attributes'], the decoded mapping has the key ['attributes'] if and
    only if the group carries at least one attribute; the decoded form of
    a dataset always has it. *)
Theorem decode_group_attributes_key (children attrs : list (pystr * pyval))
  (r : pyval) :
  names_key (str "attributes") children = false ->
  decode_group (PGroup children attrs) = Ok r ->
  (has_key (str "attributes") r = true <-> attrs <> []) /\
  (forall dattrs raw r',
     decode_group (PDataset dattrs raw) = Ok r' ->
     has_key (str "attributes") r' = true).
Proof.
  intros Hnk H. split.
  - rewrite decode_group_group in H.
    destruct (convert children) as [data|e] eqn:Hc; [|discriminate].
    cbn [bind] in H. pose proof (convert_mem (str "attributes") _ Hc) as Hm.
    rewrite Hnk in Hm.
    destruct attrs as [|kv attrs]; cbn [length Nat.eqb] in H.
    + inversion H; subst r. cbn [has_key]. rewrite Hm.
      split; [discriminate | congruence].
    + destruct (decode_group (PAttrs (kv :: attrs))) as [a|e];
        [|discriminate].
      inversion H; subst r. cbn [has_key].
      rewrite mem_set, pystr_eqb_refl. split; [discriminate | reflexivity].
  - intros dattrs raw r' Hd. rewrite decode_group_dataset in Hd.
    destruct (decode_group (PAttrs dattrs)) as [a|e]; [|discriminate].
    destruct raw; inversion Hd; reflexivity.
Qed.

Lemma decode_group_attributes_key_witness :
  (has_key (str "attributes") (PDict [(str "n", PInt 1)]) = true
   <-> @nil (pystr * pyval) <> []) /\
  (forall dattrs raw r',
     decode_group (PDataset dattrs raw) = Ok r' ->
     has_key (str "attributes") r' = true).
Proof.
  apply (@decode_group_attributes_key [(str "n", PInt 1)] []); reflexivity.
Defined.

End ReaderSpec.

(** * Properties of the grid operations *)

Unset Implicit Arguments.

(** ** Comparisons of binary64 floats *)

Module FloatFacts.

Lemma SFcompare_swap (x y : spec_float) :
  SFcompare y x = option_map CompOpp (SFcompare x y).
Proof.
  destruct x as [sx|sx| |sx mx ex], y as [sy|sy| |sy my ey]; simpl;
    try reflexivity;
    try (destruct sx; reflexivity);
    try (destruct sy; reflexivity);
    try (destruct sx, sy; reflexivity).
  destruct sx, sy; simpl; try reflexivity;
    rewrite (Z.compare_antisym ex ey);
    destruct (ex ?= ey)%Z; simpl; try reflexivity;
    rewrite ?Pos.compare_cont_antisym; reflexivity.
Qed.

Lemma ltb_leb (x y : float) :
  PrimFloat.ltb x y = true -> PrimFloat.leb x y = true.
Proof.
  rewrite ltb_spec, leb_spec. unfold SFltb, SFleb.
  destruct (SFcompare _ _) as [[]|]; congruence.
Qed.

Lemma eqb_leb_swap (x y : float) :
  PrimFloat.eqb x y = true -> PrimFloat.leb y x = true.
Proof.
  rewrite eqb_spec, leb_spec. unfold SFeqb, SFleb.
  rewrite (SFcompare_swap (Prim2SF x) (Prim2SF y)).
  destruct (SFcompare _ _) as [[]|]; simpl; congruence.
Qed.

Lemma ltb_leb_swap (x y : float) :
  PrimFloat.ltb x y = true -> PrimFloat.leb y x = false.
Proof.
  rewrite ltb_spec, leb_spec. unfold SFltb, SFleb.
  rewrite (SFcompare_swap (Prim2SF x) (Prim2SF y)).
  destruct (SFcompare _ _) as [[]|]; simpl; congruence.
Qed.

Lemma ltb_eqb_swap (x y : float) :
  PrimFloat.ltb x y = true -> PrimFloat.eqb y x = false.
Proof.
  rewrite ltb_spec, eqb_spec. unfold SFltb, SFeqb.
  rewrite (SFcompare_swap (Prim2SF x) (Prim2SF y)).
  destruct (SFcompare _ _) as [[]|]; simpl; congruence.
Qed.

Lemma ltb_asym (x y : float) :
  PrimFloat.ltb x y = true -> PrimFloat.ltb y x = false.
Proof.
  rewrite !ltb_spec. unfold SFltb.
  rewrite (SFcompare_swap (Prim2SF x) (Prim2SF y)).
  destruct (SFcompare _ _) as [[]|]; simpl; congruence.
Qed.

Lemma is_nan_nan : PrimFloat.is_nan nan = true.
Proof. reflexivity. Qed.

End FloatFacts.

(** ** Lists, grids and the store *)

Module NpFacts.
Import Np.

Lemma map2_map_self {A B C : Type} (f : B -> A -> C) (g : A -> B) (l : list A) :
  map2 f (map g l) l = map (fun z => f (g z) z) l.
Proof.
  unfold map2. induction l as [|z l IH]; simpl; [reflexivity|].
  now rewrite IH.
Qed.

Lemma map2_grid_self {A B C : Type} (f : B -> A -> C) (g : A -> B) (a : grid A) :
  map2 (map2 f) (map (map g) a) a = map (map (fun z => f (g z) z)) a.
Proof.
  rewrite (map2_map_self (map2 f) (map g) a).
  apply map_ext. intros r. apply map2_map_self.
Qed.

Lemma shape_map {A B : Type} (f : A -> B) (a : grid A) :
  shape (map (map f) a) = shape a.
Proof.
  unfold shape. rewrite length_map. destruct a; simpl; [reflexivity|].
  now rewrite length_map.
Qed.

Lemma shape_eqb_refl (s : nat * nat) : shape_eqb s s = true.
Proof. unfold shape_eqb. now rewrite !Nat.eqb_refl. Qed.

Lemma rect_shape {A B : Type} (M N : nat) (a : grid A) (b : grid B) :
  rect M N a -> rect M N b -> shape a = shape b.
Proof.
  intros [La Fa] [Lb Fb]. unfold shape. rewrite La, Lb.
  destruct a as [|ra a], b as [|rb b]; simpl in *; try congruence.
  inversion Fa; inversion Fb; congruence.
Qed.

Lemma cell_map {A B : Type} (f : A -> B) (a : grid A) (i j : nat) :
  cell (map (map f) a) i j = option_map f (cell a i j).
Proof.
  unfold cell. rewrite nth_error_map.
  destruct (nth_error a i) as [r|]; simpl; [|reflexivity].
  apply nth_error_map.
Qed.

Lemma ravel_map {A B : Type} (f : A -> B) (a : grid A) :
  ravel (map (map f) a) = map f (ravel a).
Proof. unfold ravel. now rewrite concat_map. Qed.

Lemma nth_error_combine {A B : Type} (l : list A) (l' : list B) (n : nat) :
  nth_error (combine l l') n =
  match nth_error l n, nth_error l' n with
  | Some x, Some y => Some (x, y)
  | _, _ => None
  end.
Proof.
  revert l' n. induction l as [|x l IH]; intros [|y l'] [|n]; simpl; auto.
  - now destruct (nth_error l n).
Qed.

Lemma nth_error_map2 {A B C : Type} (f : A -> B -> C) (l : list A)
  (l' : list B) (n : nat) (x : A) (y : B) :
  nth_error l n = Some x -> nth_error l' n = Some y ->
  nth_error (map2 f l l') n = Some (f x y).
Proof.
  intros Hx Hy. unfold map2.
  now rewrite nth_error_map, nth_error_combine, Hx, Hy.
Qed.

Lemma cell_map2 {A B C : Type} (f : A -> B -> C) (a : grid A) (b : grid B)
  (i j : nat) (x : A) (y : B) :
  cell a i j = Some x -> cell b i j = Some y ->
  cell (map2 (map2 f) a b) i j = Some (f x y).
Proof.
  unfold cell. intros Hx Hy.
  destruct (nth_error a i) as [ra|] eqn:Ha; [|discriminate].
  destruct (nth_error b i) as [rb|] eqn:Hb; [|discriminate].
  rewrite (nth_error_map2 (map2 f) a b i ra rb Ha Hb).
  now apply nth_error_map2.
Qed.

Lemma length_map2 {A B C : Type} (f : A -> B -> C) (l : list A) (l' : list B) :
  length l = length l' -> length (map2 f l l') = length l.
Proof.
  intros H. unfold map2. rewrite length_map, length_combine. lia.
Qed.

Lemma rect_map2 {A B C : Type} (f : A -> B -> C) (M N : nat) (a : grid A)
  (b : grid B) :
  rect M N a -> rect M N b -> rect M N (map2 (map2 f) a b).
Proof.
  intros [La Fa] [Lb Fb]. split.
  - rewrite length_map2; congruence.
  - clear La Lb. revert b Fb.
    induction Fa as [|ra a Hra Fa IH]; intros b Fb.
    + constructor.
    + destruct Fb as [|rb b Hrb Fb]; [constructor|].
      change (map2 (map2 f) (ra :: a) (rb :: b))
        with (map2 f ra rb :: map2 (map2 f) a b).
      constructor.
      * rewrite length_map2; congruence.
      * apply IH, Fb.
Qed.

(** Row-major position of a cell. *)
Lemma ravel_cell {A : Type} (N : nat) (a : grid A) :
  Forall (fun r => length r = N) a ->
  forall i j, j < N -> nth_error (ravel a) (i * N + j) = cell a i j.
Proof.
  unfold ravel, cell. induction 1 as [|r a Hr Fa IH]; intros i j Hj.
  - simpl. now destruct (i * N + j), i.
  - destruct i as [|i]; simpl.
    + apply nth_error_app1. lia.
    + rewrite nth_error_app2 by lia.
      replace (N + i * N + j - length r) with (i * N + j) by lia.
      now apply IH.
Qed.

Lemma select_combine {A B : Type} (m : list bool) (l : list A) (l' : list B) :
  select m (combine l l') = combine (select m l) (select m l').
Proof.
  revert l l'. induction m as [|b m IH]; intros [|x l] [|y l']; simpl;
    try reflexivity.
  - now rewrite combine_nil.
  - rewrite IH. now destruct b.
Qed.

Lemma In_select {A : Type} (m : list bool) (l : list A) (e : A) :
  In e (select m l) ->
  exists c, nth_error l c = Some e /\ nth_error m c = Some true.
Proof.
  revert l. induction m as [|b m IH]; intros [|x l]; simpl; try tauto.
  destruct b; simpl.
  - intros [->|H]; [exists 0; auto|].
    destruct (IH _ H) as (c & ? & ?). now exists (S c).
  - intros H. destruct (IH _ H) as (c & ? & ?). now exists (S c).
Qed.


Lemma select_map_agree {A : Type} (p : A -> bool) (f : A -> A) (l : list A) :
  (forall x, p x = true -> f x = x) ->
  select (map p l) (map f l) = select (map p l) l.
Proof.
  intros H. induction l as [|x l IH]; simpl; [reflexivity|].
  destruct (p x) eqn:E; [rewrite (H x E)|]; now rewrite IH.
Qed.

(** The store *)

Lemma nth_error_alloc (h : heap) (a : ndarray) :
  nth_error (h ++ [a]) (length h) = Some a.
Proof. rewrite nth_error_app2 by lia. now rewrite Nat.sub_diag. Qed.

Lemma nth_error_grow (h h' : heap) (r : ref) (a : ndarray) :
  nth_error h r = Some a -> nth_error (h ++ h') r = Some a.
Proof.
  intros H. rewrite nth_error_app1; [exact H|].
  apply nth_error_Some. congruence.
Qed.

Lemma update_last (h : heap) (a b : ndarray) :
  update (length h) b (h ++ [a]) = h ++ [b].
Proof. induction h as [|c h IH]; simpl; [reflexivity|]. now rewrite IH. Qed.

End NpFacts.

(** ** Running the array operations on a store *)

Module RunFacts.
Import Np Griddata Utils NpFacts.
Local Open Scope heap_scope.

Lemma bindM_ok {A B : Type} (m : M A) (f : A -> M B) (h h' : heap) (a : A) :
  m h = Ok (a, h') -> bindM m f h = f a h'.
Proof. intros H. unfold bindM. now rewrite H. Qed.

Lemma load_run (h : heap) (r : ref) (a : ndarray) :
  nth_error h r = Some a -> load r h = Ok (a, h).
Proof. intros H. unfold load. now rewrite H. Qed.

Lemma copy_run (h : heap) (r : ref) (a : ndarray) :
  nth_error h r = Some a -> copy r h = Ok (length h, h ++ [a]).
Proof. intros H. unfold copy. now rewrite (bindM_ok _ _ _ _ _ (load_run _ _ _ H)). Qed.

Lemma astype_float_run (h : heap) (r : ref) (a : ndarray) :
  nth_error h r = Some a ->
  astype_float r h = Ok (length h, h ++ [FloatArr (as_float a)]).
Proof.
  intros H. unfold astype_float. now rewrite (bindM_ok _ _ _ _ _ (load_run _ _ _ H)).
Qed.

Lemma greater_equal_run (h : heap) (r : ref) (a : ndarray) (thr : float) :
  nth_error h r = Some a ->
  greater_equal r thr h
  = Ok (map (map (fun z => PrimFloat.leb thr z)) (as_float a), h).
Proof.
  intros H. unfold greater_equal. now rewrite (bindM_ok _ _ _ _ _ (load_run _ _ _ H)).
Qed.

Lemma equal_run (h : heap) (r : ref) (a : ndarray) (thr : float) :
  nth_error h r = Some a ->
  equal r thr h
  = Ok (map (map (fun z => PrimFloat.eqb z thr)) (as_float a), h).
Proof.
  intros H. unfold equal. now rewrite (bindM_ok _ _ _ _ _ (load_run _ _ _ H)).
Qed.

Lemma isnan_run (h : heap) (r : ref) (a : ndarray) :
  nth_error h r = Some a ->
  isnan r h = Ok (map (map PrimFloat.is_nan) (as_float a), h).
Proof.
  intros H. unfold isnan. now rewrite (bindM_ok _ _ _ _ _ (load_run _ _ _ H)).
Qed.

(** A mask computed from the newest array marks it in place. *)
Lemma setitem_mask_last (h : heap) (a : grid float) (g : float -> bool)
  (v : float) :
  setitem_mask (length h) (map (map g) a) v (h ++ [FloatArr a])
  = Ok (tt, h ++ [FloatArr (map (map (fun z => if g z then v else z)) a)]).
Proof.
  unfold setitem_mask.
  rewrite (bindM_ok _ _ _ _ _ (load_run _ _ _ (nth_error_alloc h (FloatArr a)))).
  rewrite shape_map, shape_eqb_refl. unfold store.
  now rewrite update_last, map2_grid_self.
Qed.

Lemma getitem_mask_run (h : heap) (r : ref) (a : ndarray) (m : grid bool) :
  nth_error h r = Some a ->
  shape m = shape (as_float a) ->
  getitem_mask r m h = Ok (select (ravel m) (ravel (as_float a)), h).
Proof.
  intros H Hs. unfold getitem_mask.
  rewrite (bindM_ok _ _ _ _ _ (load_run _ _ _ H)). now rewrite Hs, shape_eqb_refl.
Qed.

(** [remove_nodata] allocates the copy and the float64 array, marks the
    latter and returns it. *)
Lemma remove_nodata_run (h : heap) (Z : ref) (za : ndarray) (thr : float) :
  nth_error h Z = Some za ->
  remove_nodata Z thr h
  = Ok (S (length h),
        h ++ [za; FloatArr (map (map (mark_ge thr)) (as_float za))]).
Proof.
  intros H. unfold remove_nodata.
  rewrite (bindM_ok _ _ _ _ _ (copy_run _ _ _ H)).
  rewrite (bindM_ok _ _ _ _ _ (astype_float_run _ _ _ (nth_error_alloc h za))).
  assert (Hl : length (h ++ [za]) = S (length h))
    by (rewrite length_app; simpl; lia).
  rewrite (bindM_ok _ _ _ _ _ (greater_equal_run _ _ _ thr
             (nth_error_alloc (h ++ [za]) (FloatArr (as_float za))))).
  cbn [as_float].
  rewrite (bindM_ok _ _ _ _ _ (setitem_mask_last (h ++ [za]) (as_float za)
             (fun z => PrimFloat.leb thr z) nan)).
  unfold ret. rewrite Hl, <- app_assoc. reflexivity.
Qed.

(** [fill_nodata] on grids of one shape: the float64 copy of [Z] is
    marked, and the result is [griddata]'s on the valid samples. *)
Lemma fill_nodata_run (h : heap) (X Y Z : ref) (xa ya za : ndarray)
  (thr : float) :
  nth_error h X = Some xa ->
  nth_error h Y = Some ya ->
  nth_error h Z = Some za ->
  shape (as_float xa) = shape (as_float za) ->
  shape (as_float ya) = shape (as_float za) ->
  fill_nodata X Y Z thr h =
  Ok (S (length h),
      h ++ [FloatArr (map (map (mark_eq thr)) (as_float za));
            FloatArr (filled (as_float xa) (as_float ya)
                        (samples (as_float xa) (as_float ya)
                           (as_float za) thr))]).
Proof.
  intros HX HY HZ HsX HsY. unfold fill_nodata.
  rewrite (bindM_ok _ _ _ _ _ (astype_float_run _ _ _ HZ)).
  set (zf := as_float za) in *.
  rewrite (bindM_ok _ _ _ _ _ (equal_run _ _ _ thr (nth_error_alloc h (FloatArr zf)))).
  cbn [as_float].
  rewrite (bindM_ok _ _ _ _ _ (setitem_mask_last h zf
             (fun z => PrimFloat.eqb z thr) nan)).
  fold (mark_eq thr).
  set (zm := map (map (mark_eq thr)) zf).
  set (h1 := h ++ [FloatArr zm]).
  rewrite (bindM_ok _ _ _ _ _ (isnan_run _ _ _ (nth_error_alloc h (FloatArr zm)))).
  cbn [as_float].
  set (mask := invert (map (map PrimFloat.is_nan) zm)).
  assert (Hm : shape mask = shape zf).
  { unfold mask, invert, zm. now rewrite !shape_map. }
  rewrite (bindM_ok _ _ _ _ _ (getitem_mask_run _ _ _ mask (nth_error_grow _ _ _ _ HX)
             (eq_trans Hm (eq_sym HsX)))).
  rewrite (bindM_ok _ _ _ _ _ (getitem_mask_run _ _ _ mask (nth_error_grow _ _ _ _ HY)
             (eq_trans Hm (eq_sym HsY)))).
  assert (Hzm : shape mask = shape (as_float (FloatArr zm))).
  { unfold mask, invert. now rewrite !shape_map. }
  rewrite (bindM_ok _ _ _ _ _ (getitem_mask_run _ _ _ mask
             (nth_error_alloc h (FloatArr zm)) Hzm)).
  cbn [as_float]. unfold griddata_nearest.
  rewrite (bindM_ok _ _ _ _ _ (load_run _ _ _ (nth_error_grow _ _ _ _ HX))).
  rewrite (bindM_ok _ _ _ _ _ (load_run _ _ _ (nth_error_grow _ _ _ _ HY))).
  change (combine (column_stack (select (ravel mask) (ravel (as_float xa)))
                                (select (ravel mask) (ravel (as_float ya))))
                  (select (ravel mask) (ravel zm)))
    with (samples (as_float xa) (as_float ya) zf thr).
  destruct (samples (as_float xa) (as_float ya) zf thr) as [|s rest];
    unfold alloc, h1, filled, interpolated;
    rewrite length_app, <- app_assoc; simpl; now rewrite Nat.add_1_r.
Qed.

End RunFacts.

Module UtilsFacts.
Import Np Griddata Utils FloatFacts NpFacts RunFacts.

Lemma valid_spec (thr z : float) :
  valid thr z = true ->
  PrimFloat.eqb z thr = false /\ PrimFloat.is_nan z = false /\
  mark_eq thr z = z.
Proof.
  unfold valid, mark_eq. destruct (PrimFloat.eqb z thr).
  - rewrite is_nan_nan. discriminate.
  - intros H. apply negb_true_iff in H. auto.
Qed.

Lemma mark_eq_nan_iff (thr z : float) :
  PrimFloat.is_nan (mark_eq thr z) = true <->
  PrimFloat.eqb z thr = true \/ PrimFloat.is_nan z = true.
Proof.
  unfold mark_eq. destruct (PrimFloat.eqb z thr).
  - rewrite is_nan_nan. tauto.
  - split; [tauto | intros [H|H]; [discriminate | exact H]].
Qed.

Lemma ltb_not_nan_r (x y : float) :
  PrimFloat.ltb x y = true -> PrimFloat.is_nan y = false.
Proof.
  unfold PrimFloat.is_nan. rewrite ltb_spec, eqb_spec. unfold SFltb, SFeqb.
  destruct (Prim2SF y) as [s|s| |s m e]; destruct (Prim2SF x) as [t|t| |t n f];
    simpl; try discriminate; intros _;
    try (destruct s; reflexivity).
  all: destruct s; rewrite Z.compare_refl, Pos.compare_cont_refl; reflexivity.
Qed.

Lemma valid_above (thr z : float) :
  PrimFloat.ltb thr z = true -> valid thr z = true.
Proof.
  intros H. unfold valid, mark_eq.
  now rewrite (ltb_eqb_swap _ _ H), (ltb_not_nan_r _ _ H).
Qed.

(** The mask of valid cells and the marked values, row-major. *)
Lemma ravel_mask (zf : grid float) (thr : float) :
  ravel (invert (map (map PrimFloat.is_nan) (map (map (mark_eq thr)) zf)))
  = map (valid thr) (ravel zf).
Proof.
  unfold invert. rewrite !ravel_map, !map_map. reflexivity.
Qed.

(** The samples are the cells of the three grids, row-major, under the
    mask of valid cells. *)
Lemma samples_select (xf yf zf : grid float) (thr : float) :
  samples xf yf zf thr
  = select (map (valid thr) (ravel zf))
           (combine (combine (ravel xf) (ravel yf)) (ravel zf)).
Proof.
  unfold samples, column_stack. rewrite ravel_mask, ravel_map.
  rewrite (select_map_agree (valid thr) (mark_eq thr)).
  - now rewrite !select_combine.
  - intros z Hz. now apply valid_spec.
Qed.

Lemma In_ravel_cell {A : Type} (a : grid A) (z : A) :
  In z (ravel a) -> exists i j, cell a i j = Some z.
Proof.
  unfold ravel, cell. intros H. apply in_concat in H as (r & Hr & Hz).
  apply In_nth_error in Hr as (i & Hi). apply In_nth_error in Hz as (j & Hj).
  exists i, j. now rewrite Hi.
Qed.

End UtilsFacts.

Module NearestFacts.
Import Np Griddata FloatFacts NpFacts.

Lemma strictly_nearer_asym (q p p' : point) :
  strictly_nearer q p p' = true -> strictly_nearer q p' p = false.
Proof. apply ltb_asym. Qed.

Lemma nearest_from_In (q : point) (rest : list (point * float)) :
  forall best, In (nearest_from q best rest) (map snd (best :: rest)).
Proof.
  induction rest as [|s rest IH]; intros best; simpl.
  - now left.
  - destruct (strictly_nearer q (fst s) (fst best)).
    + right. apply IH.
    + destruct (IH best) as [H|H]; [now left | now right; right].
Qed.

Lemma nearest_from_keep (q : point) (rest : list (point * float)) :
  forall best,
    (forall e, In e rest -> strictly_nearer q (fst e) (fst best) = false) ->
    nearest_from q best rest = snd best.
Proof.
  induction rest as [|s rest IH]; intros best H; simpl; [reflexivity|].
  rewrite (H s) by now left. apply IH. intros e He. apply H. now right.
Qed.

Lemma nearest_from_reach (q : point) (s0 : point * float)
  (B A : list (point * float)) :
  forall best,
    (forall e, In e (best :: A) -> strictly_nearer q (fst s0) (fst e) = true) ->
    (forall e, In e B -> strictly_nearer q (fst s0) (fst e) = true) ->
    nearest_from q best (A ++ s0 :: B) = snd s0.
Proof.
  induction A as [|a A IH]; intros best HA HB; simpl.
  - rewrite (HA best) by now left.
    apply nearest_from_keep. intros e He.
    apply strictly_nearer_asym, HB, He.
  - destruct (strictly_nearer q (fst a) (fst best)); apply IH; auto;
      intros e [->|He]; apply HA; simpl; auto.
Qed.

(** A sample that is strictly nearer than every other one is the one
    chosen, wherever it stands in the list. *)
Lemma nearest_unique (q : point) (s0 s : point * float)
  (A B rest : list (point * float)) :
  s :: rest = A ++ s0 :: B ->
  (forall e, In e A \/ In e B -> strictly_nearer q (fst s0) (fst e) = true) ->
  nearest_from q s rest = snd s0.
Proof.
  intros Hsplit H. destruct A as [|a A]; simpl in Hsplit;
    inversion Hsplit; subst.
  - apply nearest_from_keep. intros e He.
    apply strictly_nearer_asym, H. now right.
  - apply nearest_from_reach.
    + intros e He. apply H. now left.
    + intros e He. apply H. now right.
Qed.

Lemma select_split {A : Type} (m : list bool) :
  forall (l : list A) (c : nat) (e : A),
    nth_error l c = Some e -> nth_error m c = Some true ->
    exists L R,
      select m l = L ++ e :: R /\
      (forall e', In e' L \/ In e' R ->
         exists c', c' <> c /\ nth_error l c' = Some e' /\
                    nth_error m c' = Some true).
Proof.
  induction m as [|b m IH]; intros [|x l] [|c] e Hl Hm; simpl in *;
    try discriminate.
  - inversion Hl; inversion Hm; subst. exists [], (select m l).
    split; [reflexivity|]. intros e' [[]|He'].
    apply In_select in He' as (c' & ? & ?). now exists (S c').
  - destruct (IH l c e Hl Hm) as (L & R & Hs & Hothers).
    assert (Hup : forall e', In e' L \/ In e' R ->
              exists c', c' <> S c /\ nth_error (x :: l) c' = Some e' /\
                         nth_error (b :: m) c' = Some true).
    { intros e' He'. destruct (Hothers e' He') as (c' & ? & ? & ?).
      exists (S c'). simpl. auto. }
    destruct b.
    + exists (x :: L), R. rewrite Hs. split; [reflexivity|].
      intros e' [[->|He']|He']; auto.
      exists 0. simpl. auto.
    + exists L, R. split; [exact Hs | exact Hup].
Qed.

Lemma cell_in_rect {A : Type} (M N : nat) (a : grid A) (i j : nat) (x : A) :
  rect M N a -> cell a i j = Some x -> i < M /\ j < N.
Proof.
  intros [La Fa] H. unfold cell in H.
  destruct (nth_error a i) as [r|] eqn:Hr; [|discriminate].
  split.
  - rewrite <- La. apply nth_error_Some. congruence.
  - rewrite Forall_forall in Fa. rewrite <- (Fa r (nth_error_In _ _ Hr)).
    apply nth_error_Some. congruence.
Qed.

Lemma rect_cell {A : Type} (M N : nat) (a : grid A) (i j : nat) :
  rect M N a -> i < M -> j < N -> exists x, cell a i j = Some x.
Proof.
  intros [La Fa] Hi Hj. unfold cell.
  destruct (nth_error a i) as [r|] eqn:Hr.
  - rewrite Forall_forall in Fa. pose proof (Fa r (nth_error_In _ _ Hr)) as Lr.
    destruct (nth_error r j) as [x|] eqn:Hx; [now exists x|].
    apply nth_error_None in Hx. lia.
  - apply nth_error_None in Hr. lia.
Qed.

Lemma cell_map2_inv {A B C : Type} (f : A -> B -> C) (a : grid A) (b : grid B)
  (i j : nat) (v : C) :
  cell (map2 (map2 f) a b) i j = Some v -> exists x y, v = f x y.
Proof.
  unfold cell, map2. rewrite nth_error_map.
  destruct (nth_error (combine a b) i) as [[ra rb]|]; simpl; [|discriminate].
  rewrite nth_error_map.
  destruct (nth_error (combine ra rb) j) as [[x y]|]; simpl; [|discriminate].
  intros H. inversion H. now exists x, y.
Qed.

(** The cell behind a row-major position. *)
Lemma ravel_position {A : Type} (M N : nat) (a : grid A) (c : nat) :
  rect M N a -> 0 < N ->
  nth_error (ravel a) c = cell a (c / N) (c mod N).
Proof.
  intros [_ Fa] HN.
  rewrite <- (ravel_cell N a Fa (c / N) (c mod N))
    by (apply Nat.mod_upper_bound; lia).
  f_equal. rewrite (Nat.div_mod_eq c N) at 1. lia.
Qed.

End NearestFacts.

Module UtilsSpec.
Import Np Griddata Utils FloatFacts NpFacts RunFacts UtilsFacts NearestFacts.
Import TestGrids.

(** Around a valid cell, the samples split into that cell's sample and
    samples of other valid cells. *)
Lemma samples_split (xf yf zf : grid float) (thr : float) (M N : nat) :
  rect M N xf -> rect M N yf -> rect M N zf ->
  forall k l xk yk zk,
    cell xf k l = Some xk -> cell yf k l = Some yk ->
    cell zf k l = Some zk -> valid thr zk = true ->
    exists L R,
      samples xf yf zf thr = L ++ ((xk, yk), zk) :: R /\
      (forall e, In e L \/ In e R ->
         exists k' l',
           (k', l') <> (k, l) /\
           cell xf k' l' = Some (fst (fst e)) /\
           cell yf k' l' = Some (snd (fst e)) /\
           cell zf k' l' = Some (snd e) /\
           valid thr (snd e) = true).
Proof.
  intros RX RY RZ k l xk yk zk Hx Hy Hz Hv.
  destruct (cell_in_rect M N zf k l zk RZ Hz) as [Hk Hl].
  assert (HN : 0 < N) by lia.
  set (cells := combine (combine (ravel xf) (ravel yf)) (ravel zf)).
  assert (Hpos : forall c,
            nth_error cells c =
            match cell xf (c / N) (c mod N), cell yf (c / N) (c mod N),
                  cell zf (c / N) (c mod N) with
            | Some x, Some y, Some z => Some ((x, y), z)
            | _, _, _ => None
            end).
  { intros c. unfold cells.
    rewrite !nth_error_combine.
    rewrite (ravel_position M N xf c RX HN), (ravel_position M N yf c RY HN),
      (ravel_position M N zf c RZ HN).
    destruct (cell xf (c / N) (c mod N)), (cell yf (c / N) (c mod N)),
      (cell zf (c / N) (c mod N)); reflexivity. }
  assert (Hvm : forall c,
            nth_error (map (valid thr) (ravel zf)) c =
            option_map (valid thr) (cell zf (c / N) (c mod N))).
  { intros c. now rewrite nth_error_map, (ravel_position M N zf c RZ HN). }
  assert (Hdiv : (k * N + l) / N = k).
  { rewrite Nat.div_add_l by lia. rewrite Nat.div_small by lia. lia. }
  assert (Hmod : (k * N + l) mod N = l).
  { rewrite Nat.add_comm, Nat.Div0.mod_add. now apply Nat.mod_small. }
  rewrite samples_select. fold cells.
  destruct (select_split (map (valid thr) (ravel zf)) cells (k * N + l)
              ((xk, yk), zk)) as (L & R & Hs & Ho).
  { now rewrite Hpos, Hdiv, Hmod, Hx, Hy, Hz. }
  { now rewrite Hvm, Hdiv, Hmod, Hz; simpl; rewrite Hv. }
  exists L, R. split; [exact Hs|].
  intros e He. destruct (Ho e He) as (c' & Hne & Hc' & Hm').
  exists (c' / N), (c' mod N).
  rewrite Hpos in Hc'. rewrite Hvm in Hm'.
  destruct (cell xf (c' / N) (c' mod N)) as [x'|]; [|discriminate Hc'].
  destruct (cell yf (c' / N) (c' mod N)) as [y'|]; [|discriminate Hc'].
  destruct (cell zf (c' / N) (c' mod N)) as [z'|]; [|discriminate Hc'].
  inversion Hc'; subst e. simpl in *. inversion Hm' as [Hv'].
  repeat split; auto.
  intros Heq. inversion Heq as [[Hq Hr]]. apply Hne.
  rewrite (Nat.div_mod_eq c' N), Hq, Hr. lia.
Qed.

(** Every sample value is a valid value. *)
Lemma samples_valid (xf yf zf : grid float) (thr : float) (e : point * float) :
  In e (samples xf yf zf thr) -> valid thr (snd e) = true.
Proof.
  rewrite samples_select. intros He.
  apply In_select in He as (c & Hc & Hm).
  rewrite nth_error_combine in Hc. rewrite nth_error_map in Hm.
  destruct (nth_error (ravel zf) c) as [z|]; [|discriminate Hm].
  match type of Hc with
  | match ?t with _ => _ end = _ => destruct t as [p|]; [|discriminate Hc]
  end.
  inversion Hc; subst e. simpl in *. now inversion Hm.
Qed.

(** C1: for grids X, Y and a field Z of one shape M x N with at least one
    valid cell (not equal to [thr], not not-a-number), [fill_nodata]
    returns a new M x N array in which no cell is equal to [thr] and no
    cell is not-a-number; and an output cell holds the Z value of the
    valid cell whose point is strictly nearer to it than the point of any
    other valid cell, when there is one. *)
Theorem fill_nodata_nearest (h : heap) (X Y Z : ref) (xa ya za : ndarray)
  (thr : float) (M N : nat) :
  nth_error h X = Some xa ->
  nth_error h Y = Some ya ->
  nth_error h Z = Some za ->
  rect M N (as_float xa) -> rect M N (as_float ya) -> rect M N (as_float za) ->
  (exists i j z, cell (as_float za) i j = Some z /\ valid thr z = true) ->
  exists out oa h',
    fill_nodata X Y Z thr h = Ok (out, h') /\
    nth_error h out = None /\
    nth_error h' out = Some (FloatArr oa) /\
    rect M N oa /\
    (forall i j v, cell oa i j = Some v ->
       PrimFloat.eqb v thr = false /\ PrimFloat.is_nan v = false) /\
    (forall i j x y k l xk yk zk,
       cell (as_float xa) i j = Some x -> cell (as_float ya) i j = Some y ->
       cell (as_float xa) k l = Some xk -> cell (as_float ya) k l = Some yk ->
       cell (as_float za) k l = Some zk -> valid thr zk = true ->
       (forall k' l' x' y' z',
          (k', l') <> (k, l) ->
          cell (as_float xa) k' l' = Some x' ->
          cell (as_float ya) k' l' = Some y' ->
          cell (as_float za) k' l' = Some z' -> valid thr z' = true ->
          strictly_nearer (x, y) (xk, yk) (x', y') = true) ->
       cell oa i j = Some zk).
Proof.
  intros HX HY HZ RX RY RZ (i0 & j0 & z0 & Hc0 & Hv0).
  set (xf := as_float xa) in *. set (yf := as_float ya) in *.
  set (zf := as_float za) in *.
  pose proof (fill_nodata_run h X Y Z xa ya za thr HX HY HZ
                (rect_shape M N _ _ RX RZ) (rect_shape M N _ _ RY RZ)) as Hrun.
  fold xf yf zf in Hrun.
  destruct (cell_in_rect M N zf i0 j0 z0 RZ Hc0) as [Hi0 Hj0].
  destruct (rect_cell M N xf i0 j0 RX Hi0 Hj0) as (x0 & Hx0).
  destruct (rect_cell M N yf i0 j0 RY Hi0 Hj0) as (y0 & Hy0).
  destruct (samples xf yf zf thr) as [|s rest] eqn:Hsam.
  { destruct (samples_split xf yf zf thr M N RX RY RZ i0 j0 x0 y0 z0
                Hx0 Hy0 Hc0 Hv0) as (L & R & Hs & _).
    rewrite Hsam in Hs. destruct L; discriminate. }
  exists (S (length h)), (interpolated xf yf s rest),
    (h ++ [FloatArr (map (map (mark_eq thr)) zf);
           FloatArr (interpolated xf yf s rest)]).
  split; [exact Hrun|].
  split; [apply nth_error_None; lia|].
  split.
  { rewrite nth_error_app2 by lia.
    now replace (S (length h) - length h) with 1 by lia. }
  split; [now apply rect_map2|].
  split.
  - intros i j v Hv. unfold interpolated in Hv.
    apply cell_map2_inv in Hv as (x & y & ->).
    pose proof (nearest_from_In (x, y) rest s) as Hin.
    apply in_map_iff in Hin as (e & He & Hin).
    rewrite <- Hsam in Hin. apply samples_valid in Hin.
    rewrite He in Hin. apply valid_spec in Hin. tauto.
  - intros i j x y k l xk yk zk Hx Hy Hxk Hyk Hzk Hvk Hnear.
    unfold interpolated.
    rewrite (cell_map2 (fun x y => nearest_from (x, y) s rest) xf yf i j x y
               Hx Hy).
    f_equal.
    destruct (samples_split xf yf zf thr M N RX RY RZ k l xk yk zk
                Hxk Hyk Hzk Hvk) as (L & R & Hs & Ho).
    rewrite Hsam in Hs.
    apply (nearest_unique (x, y) ((xk, yk), zk) s L R rest Hs).
    intros [[x' y'] z'] He.
    destruct (Ho _ He) as (k' & l' & Hne & Hx' & Hy' & Hz' & Hv').
    simpl in *. now apply (Hnear k' l' x' y' z').
Qed.

Lemma fill_nodata_nearest_witness :
  exists out oa h',
    fill_nodata 0 1 2 threshold h_one = Ok (out, h') /\
    nth_error h' out = Some (FloatArr oa) /\
    rect 1 2 oa /\
    cell oa 0 0 = Some 7%float /\
    cell oa 0 1 = Some 7%float.
Proof.
  assert (R : forall a b : Z, rect 1 2 (as_float (IntArr [[a; b]])))
    by (intros a b; split; [reflexivity | repeat constructor]).
  destruct (fill_nodata_nearest h_one 0 1 2
              (IntArr [[0; 1]]%Z) (IntArr [[0; 0]]%Z) (IntArr [[-999; 7]]%Z)
              threshold 1 2 eq_refl eq_refl eq_refl
              (R 0 1)%Z (R 0 0)%Z (R (-999) 7)%Z
              (ex_intro _ 0 (ex_intro _ 1 (ex_intro _ 7%float
                 (conj eq_refl eq_refl)))))
    as (out & oa & h' & Hrun & _ & Hout & Hrect & _ & Hnear).
  assert (Hothers : forall x y k' l' x' y' z',
            (k', l') <> (0, 1) ->
            cell (as_float (IntArr [[0; 1]]%Z)) k' l' = Some x' ->
            cell (as_float (IntArr [[0; 0]]%Z)) k' l' = Some y' ->
            cell (as_float (IntArr [[-999; 7]]%Z)) k' l' = Some z' ->
            valid threshold z' = true ->
            strictly_nearer (x, y) (1%float, 0%float) (x', y') = true).
  { intros x y [|[|k']] [|[|[|l']]] x' y' z' Hne; simpl;
      intros Hx Hy Hz Hv; try discriminate; try congruence.
    inversion Hz; subst z'. vm_compute in Hv. discriminate. }
  exists out, oa, h'.
  split; [exact Hrun|]. split; [exact Hout|]. split; [exact Hrect|].
  split.
  - apply (Hnear 0 0 0%float 0%float 0 1 1%float 0%float 7%float);
      try reflexivity. apply Hothers.
  - apply (Hnear 0 1 1%float 0%float 0 1 1%float 0%float 7%float);
      try reflexivity. apply Hothers.
Defined.

(** The assertions of [test_fill_nodata] on the grid of test_utils.py:
    after the call no cell is equal to the threshold and none is
    not-a-number. *)
Example test_fill_nodata :
  exists h' oa,
    fill_nodata 0 1 2 threshold h0 = Ok (4, h') /\
    nth_error h' 4 = Some (FloatArr oa) /\
    forallb (forallb (fun v => negb (PrimFloat.eqb v threshold)
                               && negb (PrimFloat.is_nan v))) oa = true.
Proof. do 2 eexists. repeat split; vm_compute; reflexivity. Qed.

(** C2: [remove_nodata] returns a new float64 array of the shape of [Z]
    in which every cell that held a value greater than or equal to [thr]
    (equal to it, or strictly greater) is not-a-number and every cell
    that held a value strictly less than [thr] holds that value; no array
    of the store that existed before the call is changed.  [fill_nodata]
    differs: in its float64 copy of [Z], which it marks with [mark_eq], a
    cell is not-a-number only if it was equal to [thr] or not-a-number
    before, so a value strictly greater than [thr] stays, as a valid
    sample. *)
Theorem remove_nodata_boundary (h : heap) (Z : ref) (za : ndarray) (thr : float) :
  nth_error h Z = Some za ->
  exists out oa h',
    remove_nodata Z thr h = Ok (out, h') /\
    nth_error h out = None /\
    nth_error h' out = Some (FloatArr oa) /\
    shape oa = shape (as_float za) /\
    (forall i j z, cell (as_float za) i j = Some z ->
       (PrimFloat.leb thr z = true -> cell oa i j = Some nan) /\
       (PrimFloat.eqb z thr = true -> cell oa i j = Some nan) /\
       (PrimFloat.ltb thr z = true -> cell oa i j = Some nan) /\
       (PrimFloat.ltb z thr = true -> cell oa i j = Some z)) /\
    (forall r a, nth_error h r = Some a -> nth_error h' r = Some a) /\
    (forall X Y xa ya out2 h2,
       nth_error h X = Some xa -> nth_error h Y = Some ya ->
       shape (as_float xa) = shape (as_float za) ->
       shape (as_float ya) = shape (as_float za) ->
       fill_nodata X Y Z thr h = Ok (out2, h2) ->
       nth_error h2 (length h)
       = Some (FloatArr (map (map (mark_eq thr)) (as_float za)))) /\
    (forall z,
       (PrimFloat.is_nan (mark_eq thr z) = true <->
        PrimFloat.eqb z thr = true \/ PrimFloat.is_nan z = true) /\
       (PrimFloat.ltb thr z = true ->
        mark_ge thr z = nan /\ mark_eq thr z = z /\ valid thr z = true)).
Proof.
  intros H.
  exists (S (length h)), (map (map (mark_ge thr)) (as_float za)),
    (h ++ [za; FloatArr (map (map (mark_ge thr)) (as_float za))]).
  split; [now apply remove_nodata_run|].
  split; [apply nth_error_None; lia|].
  split.
  { rewrite nth_error_app2 by lia.
    now replace (S (length h) - length h) with 1 by lia. }
  split; [apply shape_map|].
  split.
  { intros i j z Hc. rewrite cell_map, Hc. unfold mark_ge. simpl.
    repeat split; intros Hz.
    - now rewrite Hz.
    - now rewrite (eqb_leb_swap _ _ Hz).
    - now rewrite (ltb_leb _ _ Hz).
    - now rewrite (ltb_leb_swap _ _ Hz). }
  split; [intros r a Hr; now apply nth_error_grow|].
  split.
  { intros X Y xa ya out2 h2 HX HY HsX HsY Hf.
    rewrite (fill_nodata_run h X Y Z xa ya za thr HX HY H HsX HsY) in Hf.
    inversion Hf; subst. rewrite nth_error_app2 by lia.
    now rewrite Nat.sub_diag. }
  intros z. split; [apply mark_eq_nan_iff|].
  intros Hz. split; [|split].
  - unfold mark_ge. now rewrite (ltb_leb _ _ Hz).
  - now apply valid_spec, valid_above.
  - now apply valid_above.
Qed.

Lemma remove_nodata_boundary_witness :
  nth_error h0 2 = Some Zt /\
  exists out oa h',
    remove_nodata 2 15%float h0 = Ok (out, h') /\
    nth_error h' out = Some (FloatArr oa) /\
    cell oa 2 3 = Some 14%float /\
    cell oa 2 4 = Some nan /\
    cell oa 3 0 = Some nan /\
    nth_error h' 2 = Some Zt.
Proof.
  split; [reflexivity|].
  destruct (remove_nodata_boundary h0 2 Zt 15%float eq_refl)
    as (out & oa & h' & Hrun & _ & Hout & _ & Hcells & Hkeep & _).
  exists out, oa, h'.
  split; [exact Hrun|]. split; [exact Hout|].
  split.
  { apply (proj2 (proj2 (proj2 (Hcells 2 3 14%float eq_refl)))).
    reflexivity. }
  split.
  { apply (proj1 (proj2 (Hcells 2 4 15%float eq_refl))). reflexivity. }
  split.
  { apply (proj1 (proj2 (proj2 (Hcells 3 0 16%float eq_refl)))).
    reflexivity. }
  apply Hkeep. reflexivity.
Defined.




End UtilsSpec.

(** * Further properties of the decoder *)

Module ReaderMoreFacts.
Import Reader ReaderLoops Tree Safe DictFacts ReaderFacts.

Lemma names_key_In (k : pystr) (items : list (pystr * pyval)) :
  names_key k items = true <-> In k (map fst items).
Proof.
  unfold names_key, key_of. rewrite existsb_exists, in_map_iff. split.
  - intros ([k' v] & Hin & Hk). apply pystr_eqb_eq in Hk. simpl in Hk.
    subst k'. now exists (k, v).
  - intros ([k' v] & Hk & Hin). simpl in Hk. subst k'.
    exists (k, v). split; [exact Hin | apply pystr_eqb_refl].
Qed.

(** A conversion that succeeds decoded every item. *)
Lemma convert_onto_each (items : list (pystr * pyval)) :
  forall acc d,
    convert_onto items acc = Ok d ->
    Forall (fun kv => exists x, decode_group (snd kv) = Ok x) items.
Proof.
  induction items as [|[k v] items IH]; intros acc d H; simpl in *.
  - constructor.
  - destruct (decode_group v) as [x|e] eqn:Hv; simpl in H; [|discriminate].
    constructor; [now exists x | exact (IH _ _ H)].
Qed.

(** A conversion succeeds when every item decodes. *)
Lemma convert_onto_ok (items : list (pystr * pyval)) :
  Forall (fun kv => exists x, decode_group (snd kv) = Ok x) items ->
  forall acc, exists d, convert_onto items acc = Ok d.
Proof.
  induction 1 as [|[k v] items (x & Hx) _ IH]; intros acc; simpl in *.
  - now exists acc.
  - rewrite Hx. simpl. apply IH.
Qed.

(** The first item that fails to decode decides the exception. *)
Lemma convert_onto_raise (pre post : list (pystr * pyval)) (k : pystr)
  (v : pyval) (e : exn) :
  Forall (fun kv => is_ok (decode_group (snd kv)) = true) pre ->
  decode_group v = Raise e ->
  forall acc, convert_onto (pre ++ (k, v) :: post) acc = Raise e.
Proof.
  intros Hpre Hv. induction Hpre as [|[k' v'] pre Hok _ IH]; intros acc;
    simpl in *.
  - now rewrite Hv.
  - destruct (decode_group v'); [apply IH | discriminate].
Qed.

Lemma decode_each_ok (xs : list pyval) :
  Forall (fun x => exists y, decode_group x = Ok y) xs ->
  exists ys, decode_each xs = Ok ys /\ length ys = length xs.
Proof.
  induction 1 as [|x xs (y & Hy) _ (ys & Hys & Hl)]; simpl.
  - now exists [].
  - rewrite Hy, Hys. simpl. exists (y :: ys). simpl. auto.
Qed.

Lemma decode_each_plain (xs : list pyval) :
  Forall plain xs -> decode_each xs = Ok xs.
Proof.
  induction 1 as [|x xs Hx _ IH]; simpl; [reflexivity|].
  unfold plain in Hx. now rewrite Hx, IH.
Qed.

(** Setting a new key appends it. *)
Lemma set_fresh (k : pystr) (v : pyval) (d : Dict.dict) :
  ~ In k (map fst d) -> Dict.set k v d = d ++ [(k, v)].
Proof.
  induction d as [|[k' v'] d IH]; simpl; intros H; [reflexivity|].
  destruct (pystr_eqb k k') eqn:E.
  - apply pystr_eqb_eq in E. subst. tauto.
  - rewrite IH by tauto. reflexivity.
Qed.

Lemma fold_set_fresh (ps : list (pystr * pyval)) :
  forall acc,
    NoDup (map fst (acc ++ ps)) ->
    fold_left (fun d kv => Dict.set (fst kv) (snd kv) d) ps acc = acc ++ ps.
Proof.
  induction ps as [|[k v] ps IH]; intros acc Hnd; simpl.
  - now rewrite app_nil_r.
  - assert (Hk : ~ In k (map fst acc)).
    { rewrite map_app in Hnd. simpl in Hnd.
      apply NoDup_remove_2 in Hnd. rewrite in_app_iff in Hnd. tauto. }
    rewrite (set_fresh _ _ _ Hk), IH; rewrite <- app_assoc; [reflexivity|].
    exact Hnd.
Qed.

(** [dict(pairs)] of pairs with distinct keys holds the pairs, in order. *)
Lemma of_pairs_fresh (ps : list (pystr * pyval)) :
  NoDup (map fst ps) -> Dict.of_pairs ps = ps.
Proof. intros H. unfold Dict.of_pairs. now rewrite fold_set_fresh. Qed.

Lemma map_fst_combine {A B : Type} (l : list A) (l' : list B) :
  length l = length l' -> map fst (combine l l') = l.
Proof.
  revert l'. induction l as [|x l IH]; intros [|y l'] H; simpl in *;
    try discriminate; [reflexivity|].
  f_equal. apply IH. lia.
Qed.

Lemma get_combine (names : list pystr) (row : list pyval) (j : nat)
  (name : pystr) :
  NoDup names -> length row = length names ->
  nth_error names j = Some name ->
  Dict.get name (combine names row) = nth_error row j.
Proof.
  revert row j. induction names as [|n names IH]; intros [|x row] j Hnd Hl Hj;
    simpl in *; try discriminate.
  - now destruct j.
  - inversion Hnd as [|? ? Hn Hnd']; subst.
    destruct j as [|j]; simpl in *.
    + inversion Hj; subst. now rewrite pystr_eqb_refl.
    + destruct (pystr_eqb name n) eqn:E.
      * apply pystr_eqb_eq in E. subst.
        apply nth_error_In in Hj. contradiction.
      * apply IH; auto.
Qed.

(** One record of at least two plain fields becomes the dictionary of
    its fields under the field names. *)
Lemma record_dict (names : list pystr) (row : list pyval) :
  NoDup names -> 2 <= length names -> length row = length names ->
  Forall plain row ->
  (x <- decode_group (PVoid row) ;; dict_zip names x)
  = Ok (PDict (combine names row)).
Proof.
  intros Hnd H2 Hl Hp. rewrite decode_group_void, (decode_each_plain row Hp).
  cbn [bind]. rewrite decode_group_list.
  destruct row as [|x [|y row]]; simpl in Hl; try lia.
  cbn [bind]. unfold dict_zip. cbn [py_iter bind].
  rewrite of_pairs_fresh; [reflexivity|].
  rewrite map_fst_combine; [exact Hnd | simpl; lia].
Qed.

Lemma void2dict_rows (names : list pystr) (rows : list (list pyval)) :
  NoDup names -> 2 <= length names ->
  Forall (fun row => length row = length names /\ Forall plain row) rows ->
  void2dict names (map PVoid rows)
  = Ok (map (fun row => PDict (combine names row)) rows).
Proof.
  intros Hnd H2 Hrows. induction Hrows as [|row rows [Hl Hp] _ IH].
  - reflexivity.
  - cbn [map].
    change (void2dict names (PVoid row :: map PVoid rows))
      with (x <- decode_group (PVoid row) ;;
            d <- dict_zip names x ;;
            ds <- void2dict names (map PVoid rows) ;; Ok (d :: ds)).
    pose proof (record_dict names row Hnd H2 Hl Hp) as Hrec.
    destruct (decode_group (PVoid row)) as [x|e]; [|discriminate Hrec].
    cbn [bind] in *. now rewrite Hrec, IH.
Qed.

End ReaderMoreFacts.

Module ReaderMore.
Import Reader ReaderLoops Tree Safe Samples DictFacts ReaderFacts.
Import ReaderMoreFacts.

(** X1: the keys of a decoded group are the names of its children,
    together with ['attributes'] when the group has an attribute. *)
Theorem decoded_group_keys (children attrs : list (pystr * pyval)) (r : pyval) :
  decode_group (PGroup children attrs) = Ok r ->
  exists d,
    r = PDict d /\
    forall k,
      Dict.mem k d
      = names_key k children
        || (pystr_eqb k (str "attributes") && nonempty attrs).
Proof.
  intros H. rewrite decode_group_group, decode_group_attrs in H.
  destruct (convert children) as [data|e] eqn:Hc; [|discriminate].
  cbn [bind] in H. destruct attrs as [|kv attrs]; cbn [length Nat.eqb] in H.
  - inversion H; subst r. exists data. split; [reflexivity|]. intros k.
    rewrite (@convert_mem k children data Hc). cbn [nonempty].
    now rewrite andb_false_r, orb_false_r.
  - destruct (convert (kv :: attrs)) as [a|e]; [|discriminate].
    inversion H; subst r. eexists. split; [reflexivity|]. intros k.
    rewrite mem_set, (@convert_mem k children data Hc). cbn [nonempty].
    now rewrite andb_true_r, orb_comm.
Qed.

Lemma decoded_group_keys_witness :
  exists d,
    PDict [(str "Measurement", PDict []);
           (str "attributes", PDict [(str "v", PInt 1)])] = PDict d /\
    forall k,
      Dict.mem k d
      = names_key k [(str "Measurement", PGroup [] [])]
        || (pystr_eqb k (str "attributes") && nonempty [(str "v", PInt 1)]).
Proof.
  apply (decoded_group_keys [(str "Measurement", PGroup [] [])]
           [(str "v", PInt 1)]).
  reflexivity.
Defined.

(** X2: in a decoded group whose children have distinct names, each child
    is found under its name, decoded; the one exception is a child named
    ['attributes'] of a group that has attributes. *)
Theorem decoded_group_child (children attrs : list (pystr * pyval))
  (d : Dict.dict) (k : pystr) (v : pyval) :
  decode_group (PGroup children attrs) = Ok (PDict d) ->
  NoDup (map fst children) ->
  In (k, v) children ->
  k <> str "attributes" \/ attrs = [] ->
  exists x, decode_group v = Ok x /\ Dict.get k d = Some x.
Proof.
  intros H Hnd Hin Hk. rewrite decode_group_group, decode_group_attrs in H.
  destruct (convert children) as [data|e] eqn:Hc; [|discriminate].
  cbn [bind] in H.
  pose proof (convert_onto_each children [] data Hc) as Hall.
  rewrite Forall_forall in Hall. destruct (Hall _ Hin) as (x & Hx).
  simpl in Hx. exists x. split; [exact Hx|].
  pose proof (@convert_onto_get k v x children [] data Hc Hin Hnd Hx) as Hget.
  destruct attrs as [|kv attrs]; cbn [length Nat.eqb] in H.
  - inversion H; subst d. exact Hget.
  - destruct (convert (kv :: attrs)) as [a|e]; [|discriminate].
    inversion H; subst d. destruct Hk as [Hk|Hk]; [|discriminate].
    now rewrite get_set_other.
Qed.

Lemma decoded_group_child_witness :
  exists x,
    decode_group row42 = Ok x /\
    Dict.get (str "n") [(str "n", PInt 42); (str "m", PStr (str "a"))]
    = Some x.
Proof.
  apply (decoded_group_child
           [(str "n", row42); (str "m", PBytes (bytes_of "a"))] []
           [(str "n", PInt 42); (str "m", PStr (str "a"))] (str "n") row42).
  - reflexivity.
  - repeat constructor; simpl; intuition discriminate.
  - left. reflexivity.
  - right. reflexivity.
Defined.

(** X3: for a group that has attributes, the entry ['attributes'] of the
    decoded group is the decoded attribute set, whatever the children
    are: a child named ['attributes'] is replaced by it. *)
Theorem group_attributes_replace_child (children attrs : list (pystr * pyval))
  (r : pyval) :
  attrs <> [] ->
  decode_group (PGroup children attrs) = Ok r ->
  exists a,
    decode_group (PAttrs attrs) = Ok a /\
    lookup_path [str "attributes"] r = Some a.
Proof.
  intros Hne H. rewrite decode_group_group in H.
  destruct (convert children) as [data|e]; [|discriminate].
  cbn [bind] in H. destruct attrs as [|kv attrs]; [congruence|].
  cbn [length Nat.eqb] in H.
  destruct (decode_group (PAttrs (kv :: attrs))) as [a|e]; [|discriminate].
  inversion H; subst r. exists a. split; [reflexivity|].
  cbn [lookup_path]. now rewrite get_set_same.
Qed.

Lemma group_attributes_replace_child_witness :
  exists a,
    decode_group (PAttrs [(str "Unit", PBytes (bytes_of "mm"))]) = Ok a /\
    lookup_path [str "attributes"]
      (PDict [(str "attributes", PDict [(str "Unit", PStr (str "mm"))])])
    = Some a.
Proof.
  apply (group_attributes_replace_child
           [(str "attributes", PDataset [] (Some (PInt 5)))]
           [(str "Unit", PBytes (bytes_of "mm"))]).
  - discriminate.
  - reflexivity.
Defined.

(** X4: decoding a group raises the exception of its first child that
    fails to decode; no partial mapping is returned. *)
Theorem group_first_failure (pre post : list (pystr * pyval)) (k : pystr)
  (v : pyval) (e : exn) (attrs : list (pystr * pyval)) :
  Forall (fun kv => is_ok (decode_group (snd kv)) = true) pre ->
  decode_group v = Raise e ->
  decode_group (PGroup (pre ++ (k, v) :: post) attrs) = Raise e.
Proof.
  intros Hpre Hv. rewrite decode_group_group. unfold convert.
  now rewrite (convert_onto_raise pre post k v e Hpre Hv).
Qed.

Lemma group_first_failure_witness :
  decode_group
    (PGroup ([(str "a", PInt 1)]
             ++ (str "b", PBytes [255%N]) :: [(str "c", one_int_field)]) [])
  = Raise UnicodeDecodeError.
Proof.
  apply group_first_failure.
  - repeat constructor.
  - reflexivity.
Defined.

(** X5: an attribute of a dataset that fails to decode makes decoding the
    dataset raise that exception, also when its raw value can be read:
    only the read of the raw value is guarded. *)
Theorem dataset_attribute_failure (pre post : list (pystr * pyval))
  (k : pystr) (v : pyval) (e : exn) (raw : option pyval) :
  Forall (fun kv => is_ok (decode_group (snd kv)) = true) pre ->
  decode_group v = Raise e ->
  decode_group (PDataset (pre ++ (k, v) :: post) raw) = Raise e.
Proof.
  intros Hpre Hv. rewrite decode_group_dataset, decode_group_attrs.
  unfold convert. now rewrite (convert_onto_raise pre post k v e Hpre Hv).
Qed.

Lemma dataset_attribute_failure_witness :
  decode_group
    (PDataset ([(str "Unit", PBytes (bytes_of "mm"))]
               ++ (str "Conv", one_int_field) :: [])
       (Some (PNdarray DNumber [2%nat; 2%nat] [])))
  = Raise TypeError.
Proof.
  apply dataset_attribute_failure.
  - repeat constructor.
  - reflexivity.
Defined.

End ReaderMore.

Module RecordsMore.
Import Reader ReaderLoops Tree Safe Samples DictFacts ReaderFacts.
Import ReaderMoreFacts.

(** X7: for records of at least two plain fields under distinct field
    names, [void2dict] returns one dictionary per record, and
    [result[i][names[j]]] is field [j] of record [i]. *)
Theorem void2dict_fields (names : list pystr) (rows : list (list pyval))
  (i j : nat) (row : list pyval) (name : pystr) :
  NoDup names -> 2 <= length names ->
  Forall (fun row => length row = length names /\ Forall plain row) rows ->
  nth_error rows i = Some row ->
  nth_error names j = Some name ->
  exists ds,
    void2dict names (map PVoid rows) = Ok ds /\
    length ds = length rows /\
    item_field i name (PList ds) = nth_error row j.
Proof.
  intros Hnd H2 Hrows Hi Hj.
  exists (map (fun row => PDict (combine names row)) rows).
  split; [now apply void2dict_rows|]. split; [apply length_map|].
  unfold item_field. rewrite nth_error_map, Hi. cbn [option_map].
  rewrite Forall_forall in Hrows.
  destruct (Hrows row (nth_error_In _ _ Hi)) as [Hl _].
  now apply get_combine.
Qed.

Lemma void2dict_fields_witness :
  exists ds,
    void2dict [str "Category"; str "Parameters"]
      (map PVoid [[PStr (str "Linear"); PList [PFloat 0; PFloat 2]];
                  [PStr (str "None"); PList []]]) = Ok ds /\
    length ds = 2 /\
    item_field 0 (str "Parameters") (PList ds)
    = nth_error [PStr (str "Linear"); PList [PFloat 0; PFloat 2]] 1.
Proof.
  apply (void2dict_fields [str "Category"; str "Parameters"]
           [[PStr (str "Linear"); PList [PFloat 0; PFloat 2]];
            [PStr (str "None"); PList []]] 0 1
           [PStr (str "Linear"); PList [PFloat 0; PFloat 2]]
           (str "Parameters")).
  - repeat constructor; simpl; intuition discriminate.
  - simpl. lia.
  - repeat constructor.
  - reflexivity.
  - reflexivity.
Defined.

(** X8: a structured array of such records decodes to the bare
    dictionary of its record when it holds exactly one record, and to
    the list of the records' dictionaries otherwise. *)
Theorem structured_array_unwrap (names : list pystr)
  (rows : list (list pyval)) (n : nat) (shape : list nat) :
  NoDup names -> 2 <= length names ->
  Forall (fun row => length row = length names /\ Forall plain row) rows ->
  decode_group (PNdarray (DVoid names) (n :: shape) (map PVoid rows))
  = Ok match rows with
       | [row] => PDict (combine names row)
       | _ => PList (map (fun row => PDict (combine names row)) rows)
       end.
Proof.
  intros Hnd H2 Hrows. rewrite decode_group_ndarray. cbn [iter_array bind].
  rewrite (void2dict_rows names rows Hnd H2 Hrows). cbn [bind].
  rewrite decode_group_list. now destruct rows as [|row [|row' rows]].
Qed.

(** The attribute ["X Converter"] of a measurement: one record. *)
Lemma structured_array_unwrap_witness :
  decode_group
    (PNdarray (DVoid [str "Category"; str "Parameters"]) [1%nat]
       (map PVoid [[PStr (str "Linear"); PList [PFloat 0; PFloat 2]]]))
  = Ok (PDict (combine [str "Category"; str "Parameters"]
                 [PStr (str "Linear"); PList [PFloat 0; PFloat 2]])).
Proof.
  apply (structured_array_unwrap [str "Category"; str "Parameters"]
           [[PStr (str "Linear"); PList [PFloat 0; PFloat 2]]] 1 []).
  - repeat constructor; simpl; intuition discriminate.
  - simpl. lia.
  - repeat constructor.
Defined.

Lemma decode_each_Forall2 (items ys : list pyval) :
  Forall2 (fun x y => decode_group x = Ok y) items ys ->
  decode_each items = Ok ys.
Proof.
  induction 1 as [|x y items ys Hx _ IH]; simpl; [reflexivity|].
  now rewrite Hx, IH.
Qed.

(** X9: an object array with at least one axis decodes element by
    element: to the decoding of its element when it holds exactly one,
    and otherwise to the list of the decodings, in order. *)
Theorem object_array_elementwise (n : nat) (shape : list nat)
  (items ys : list pyval) :
  Forall2 (fun x y => decode_group x = Ok y) items ys ->
  decode_group (PNdarray DObject (n :: shape) items)
  = Ok match ys with [y] => y | _ => PList ys end /\
  length ys = length items.
Proof.
  intros H. split.
  - rewrite decode_group_ndarray. cbn [iter_array bind].
    rewrite (decode_each_Forall2 items ys H). cbn [bind].
    apply decode_group_list.
  - symmetry. eapply Forall2_length, H.
Qed.

(** The attribute ["Unit"]: an object array holding one bytes string. *)
Lemma object_array_elementwise_witness :
  decode_group (PNdarray DObject [1%nat] [PBytes (bytes_of "NanoMeters")])
  = Ok (PStr (str "NanoMeters")) /\
  length [PStr (str "NanoMeters")] = length [PBytes (bytes_of "NanoMeters")].
Proof.
  apply (object_array_elementwise 1 []
           [PBytes (bytes_of "NanoMeters")] [PStr (str "NanoMeters")]).
  repeat constructor.
Defined.

Lemma utf8_decode_ascii (b : pybytes) :
  Forall (fun c => (c < 128)%N) b -> utf8_decode (length b) b = Ok b.
Proof.
  induction 1 as [|c b Hc _ IH]; simpl; [reflexivity|].
  apply N.ltb_lt in Hc. now rewrite Hc, IH.
Qed.

(** X10: bytes that are all ASCII decode to the text of the same
    characters. *)
Theorem decode_ascii_bytes (b : pybytes) :
  Forall (fun c => (c < 128)%N) b ->
  decode_group (PBytes b) = Ok (PStr b).
Proof.
  intros H. rewrite decode_group_bytes. unfold bytes_decode.
  now rewrite (utf8_decode_ascii b H).
Qed.

Lemma decode_ascii_bytes_witness :
  decode_group (PBytes (bytes_of "hello")) = Ok (PStr (bytes_of "hello")).
Proof.
  apply decode_ascii_bytes. repeat constructor.
Defined.

End RecordsMore.

Module ListingFacts.
Import Listing.

Section ListingFacts.

Variables shape_text dtype_text : pyval -> pystr.

Let lines := hdf5_structure shape_text dtype_text.

Lemma spaces_add (n m : nat) : spaces (n + m) = spaces n ++ spaces m.
Proof. unfold spaces. apply repeat_app. Qed.

(** The loop over the children, one child at a time. *)
Lemma hdf5_structure_cons (key : pystr) (item : pyval)
  (rest attrs attrs' : list (pystr * pyval)) (indent : nat) :
  lines (PGroup ((key, item) :: rest) attrs) indent
  = match item with
    | PGroup _ _ => group_line indent key :: lines item (indent + 4)
    | PDataset _ _ => [dataset_line shape_text dtype_text indent key item]
    | _ => []
    end ++ lines (PGroup rest attrs') indent.
Proof. reflexivity. Qed.

(** X11: listing a group at a deeper indentation prefixes every line with
    the additional spaces and changes nothing else. *)
Theorem hdf5_structure_indent (g : pyval) :
  forall n m,
    hdf5_structure shape_text dtype_text g (n + m)
    = map (fun line => spaces n ++ line)
          (hdf5_structure shape_text dtype_text g m).
Proof.
  fold lines.
  induction g using PyvalInd.pyval_nested_ind; intros n m; try reflexivity.
  clear H0. induction H as [|[key item] rest Hitem _ IH].
  - reflexivity.
  - rewrite !(hdf5_structure_cons key item rest attrs attrs).
    rewrite map_app, IH. f_equal. simpl in Hitem.
    destruct item; try reflexivity.
    + cbn [map]. rewrite <- Nat.add_assoc, Hitem. f_equal.
      unfold group_line. now rewrite spaces_add, <- app_assoc.
    + cbn [map]. unfold dataset_line.
      now rewrite spaces_add, <- app_assoc.
Qed.

(** X12: the listing has one line for each group and each dataset below
    the group, whatever the indentation; attributes add no line. *)
Theorem hdf5_structure_count (g : pyval) :
  forall indent,
    length (hdf5_structure shape_text dtype_text g indent) = nodes_below g.
Proof.
  fold lines.
  induction g using PyvalInd.pyval_nested_ind; intros indent;
    try reflexivity.
  clear H0. induction H as [|[key item] rest Hitem _ IH].
  - reflexivity.
  - rewrite (hdf5_structure_cons key item rest attrs attrs).
    rewrite length_app, IH.
    change (nodes_below (PGroup ((key, item) :: rest) attrs))
      with (match item with
            | PGroup _ _ => S (nodes_below item)
            | PDataset _ _ => 1
            | _ => 0
            end + nodes_below (PGroup rest attrs)).
    f_equal. simpl in Hitem. destruct item; try reflexivity.
    cbn [length]. now rewrite Hitem.
Qed.

End ListingFacts.

End ListingFacts.

(** * Further properties of the grid operations *)

Module FloatMore.
Import FloatFacts.

Lemma is_nan_Prim2SF (x : float) :
  PrimFloat.is_nan x = true -> Prim2SF x = S754_nan.
Proof.
  unfold PrimFloat.is_nan. rewrite eqb_spec. unfold SFeqb.
  destruct (Prim2SF x) as [s|s| |s m e]; simpl; try discriminate;
    try reflexivity.
  - destruct s; discriminate.
  - destruct s; rewrite Z.compare_refl, Pos.compare_cont_refl; discriminate.
Qed.

Lemma not_nan_Prim2SF (x : float) :
  PrimFloat.is_nan x = false -> Prim2SF x <> S754_nan.
Proof.
  unfold PrimFloat.is_nan. rewrite eqb_spec. intros H E.
  rewrite E in H. discriminate.
Qed.

Lemma SFcompare_total (x y : spec_float) :
  x <> S754_nan -> y <> S754_nan -> exists c, SFcompare x y = Some c.
Proof.
  destruct x, y; simpl; intros Hx Hy; try congruence; eauto.
Qed.

(** Nothing is greater than or equal to a not-a-number threshold. *)
Lemma leb_nan_l (thr z : float) :
  PrimFloat.is_nan thr = true -> PrimFloat.leb thr z = false.
Proof.
  intros H. rewrite leb_spec, (is_nan_Prim2SF thr H). reflexivity.
Qed.

(** Among numbers, what is not [>= thr] is [< thr]. *)
Lemma not_leb_ltb (thr z : float) :
  PrimFloat.leb thr z = false ->
  PrimFloat.is_nan thr = false -> PrimFloat.is_nan z = false ->
  PrimFloat.ltb z thr = true.
Proof.
  rewrite leb_spec, ltb_spec. unfold SFleb, SFltb. intros H Ht Hz.
  rewrite (SFcompare_swap (Prim2SF thr) (Prim2SF z)).
  destruct (SFcompare_total (Prim2SF thr) (Prim2SF z)
              (not_nan_Prim2SF thr Ht) (not_nan_Prim2SF z Hz)) as (c & Hc).
  rewrite Hc in *. destruct c; simpl; congruence.
Qed.

End FloatMore.

Module UtilsMoreFacts.
Import Np Griddata Utils Offset FloatFacts NpFacts RunFacts UtilsFacts.
Local Open Scope heap_scope.

Lemma shape_eqb_eq (s t : nat * nat) : shape_eqb s t = true <-> s = t.
Proof.
  destruct s as [a b], t as [c d]. unfold shape_eqb. simpl.
  rewrite andb_true_iff, !Nat.eqb_eq. split.
  - intros [-> ->]. reflexivity.
  - intros H. inversion H. auto.
Qed.

Lemma getitem_mask_mismatch (h : heap) (r : ref) (a : ndarray)
  (m : grid bool) :
  nth_error h r = Some a ->
  shape_eqb (shape m) (shape (as_float a)) = false ->
  getitem_mask r m h = Raise IndexError.
Proof.
  intros H Hs. unfold getitem_mask.
  rewrite (bindM_ok _ _ _ _ _ (load_run _ _ _ H)). now rewrite Hs.
Qed.

(** What [fill_nodata] does on arrays of the store, by the shapes. *)
Lemma fill_nodata_cases (h : heap) (X Y Z : ref) (xa ya za : ndarray)
  (thr : float) :
  nth_error h X = Some xa ->
  nth_error h Y = Some ya ->
  nth_error h Z = Some za ->
  (shape (as_float xa) = shape (as_float za) /\
   shape (as_float ya) = shape (as_float za))
  \/ fill_nodata X Y Z thr h = Raise IndexError.
Proof.
  intros HX HY HZ.
  destruct (shape_eqb (shape (as_float za)) (shape (as_float xa))) eqn:EX;
    [destruct (shape_eqb (shape (as_float za)) (shape (as_float ya))) eqn:EY|].
  - left. apply shape_eqb_eq in EX, EY. split; congruence.
  - right. apply shape_eqb_eq in EX. unfold fill_nodata.
    rewrite (bindM_ok _ _ _ _ _ (astype_float_run _ _ _ HZ)).
    set (zf := as_float za) in *.
    rewrite (bindM_ok _ _ _ _ _
               (equal_run _ _ _ thr (nth_error_alloc h (FloatArr zf)))).
    cbn [as_float].
    rewrite (bindM_ok _ _ _ _ _
               (setitem_mask_last h zf (fun z => PrimFloat.eqb z thr) nan)).
    set (zm := map (map (fun z => if PrimFloat.eqb z thr then nan else z)) zf).
    rewrite (bindM_ok _ _ _ _ _
               (isnan_run _ _ _ (nth_error_alloc h (FloatArr zm)))).
    cbn [as_float].
    set (mask := invert (map (map PrimFloat.is_nan) zm)).
    assert (Hm : shape mask = shape zf).
    { unfold mask, invert, zm. now rewrite !shape_map. }
    rewrite (bindM_ok _ _ _ _ _
               (getitem_mask_run _ _ _ mask (nth_error_grow _ _ _ _ HX)
                  (eq_trans Hm EX))).
    unfold bindM at 1.
    rewrite (getitem_mask_mismatch _ Y ya mask (nth_error_grow _ _ _ _ HY));
      [reflexivity | now rewrite Hm].
  - right. unfold fill_nodata.
    rewrite (bindM_ok _ _ _ _ _ (astype_float_run _ _ _ HZ)).
    set (zf := as_float za) in *.
    rewrite (bindM_ok _ _ _ _ _
               (equal_run _ _ _ thr (nth_error_alloc h (FloatArr zf)))).
    cbn [as_float].
    rewrite (bindM_ok _ _ _ _ _
               (setitem_mask_last h zf (fun z => PrimFloat.eqb z thr) nan)).
    set (zm := map (map (fun z => if PrimFloat.eqb z thr then nan else z)) zf).
    rewrite (bindM_ok _ _ _ _ _
               (isnan_run _ _ _ (nth_error_alloc h (FloatArr zm)))).
    cbn [as_float].
    set (mask := invert (map (map PrimFloat.is_nan) zm)).
    assert (Hm : shape mask = shape zf).
    { unfold mask, invert, zm. now rewrite !shape_map. }
    unfold bindM at 1.
    rewrite (getitem_mask_mismatch _ X xa mask (nth_error_grow _ _ _ _ HX));
      [reflexivity | now rewrite Hm].
Qed.

(** A call of [fill_nodata] that returns: the shapes agreed, and the
    store grew by the marked copy and the result. *)
Lemma fill_nodata_ok_inv (h h' : heap) (X Y Z out : ref)
  (xa ya za : ndarray) (thr : float) :
  nth_error h X = Some xa ->
  nth_error h Y = Some ya ->
  nth_error h Z = Some za ->
  fill_nodata X Y Z thr h = Ok (out, h') ->
  shape (as_float xa) = shape (as_float za) /\
  shape (as_float ya) = shape (as_float za) /\
  out = S (length h) /\
  h' = h ++ [FloatArr (map (map (mark_eq thr)) (as_float za));
             FloatArr (filled (as_float xa) (as_float ya)
                         (samples (as_float xa) (as_float ya)
                            (as_float za) thr))].
Proof.
  intros HX HY HZ H.
  destruct (fill_nodata_cases h X Y Z xa ya za thr HX HY HZ) as [[SX SY]|E];
    [|congruence].
  split; [exact SX|]. split; [exact SY|].
  rewrite (fill_nodata_run h X Y Z xa ya za thr HX HY HZ SX SY) in H.
  inversion H; subst. auto.
Qed.

Lemma In_samples_cell (xf yf zf : grid float) (thr : float)
  (e : point * float) :
  In e (samples xf yf zf thr) -> exists k l, cell zf k l = Some (snd e).
Proof.
  rewrite samples_select. intros He.
  apply In_select in He as (c & Hc & _).
  rewrite nth_error_combine in Hc.
  destruct (nth_error (ravel zf) c) as [z|] eqn:Hz.
  - apply nth_error_In, In_ravel_cell in Hz.
    match type of Hc with
    | match ?t with _ => _ end = _ => destruct t; [|discriminate Hc]
    end.
    now inversion Hc.
  - match type of Hc with
    | match ?t with _ => _ end = _ => destruct t; discriminate Hc
    end.
Qed.

End UtilsMoreFacts.

Module UtilsMore.
Import Np Griddata Utils FloatFacts FloatMore NpFacts RunFacts UtilsFacts.
Import UtilsMoreFacts TestGrids.

(** X13: when the shape of [X] or of [Y] differs from the shape of [Z],
    [fill_nodata] raises [IndexError] (at the boolean indexing) and
    returns nothing. *)
Theorem fill_nodata_shape_mismatch (h : heap) (X Y Z : ref)
  (xa ya za : ndarray) (thr : float) :
  nth_error h X = Some xa ->
  nth_error h Y = Some ya ->
  nth_error h Z = Some za ->
  shape (as_float xa) <> shape (as_float za) \/
  shape (as_float ya) <> shape (as_float za) ->
  fill_nodata X Y Z thr h = Raise IndexError.
Proof.
  intros HX HY HZ Hne.
  destruct (fill_nodata_cases h X Y Z xa ya za thr HX HY HZ) as [[SX SY]|E];
    [tauto | exact E].
Qed.

Lemma fill_nodata_shape_mismatch_witness :
  fill_nodata 0 1 2 threshold
    [IntArr [[0; 1; 2]]%Z; IntArr [[0; 0]]%Z; IntArr [[5; 7]]%Z]
  = Raise IndexError.
Proof.
  eapply (fill_nodata_shape_mismatch _ 0 1 2
           (IntArr [[0; 1; 2]]%Z) (IntArr [[0; 0]]%Z) (IntArr [[5; 7]]%Z));
    try reflexivity.
  left. discriminate.
Defined.

(** X14: a call of [fill_nodata] that returns leaves every array that
    existed before the call as it was (the mask assignment changes the
    float64 copy only), returns a reference that did not exist before,
    and can only have been given grids of one shape. *)
Theorem fill_nodata_inputs_kept (h h' : heap) (X Y Z out : ref)
  (xa ya za : ndarray) (thr : float) :
  nth_error h X = Some xa ->
  nth_error h Y = Some ya ->
  nth_error h Z = Some za ->
  fill_nodata X Y Z thr h = Ok (out, h') ->
  (forall r a, nth_error h r = Some a -> nth_error h' r = Some a) /\
  nth_error h out = None /\
  length h' = length h + 2 /\
  shape (as_float xa) = shape (as_float za) /\
  shape (as_float ya) = shape (as_float za).
Proof.
  intros HX HY HZ H.
  destruct (fill_nodata_ok_inv h h' X Y Z out xa ya za thr HX HY HZ H)
    as (SX & SY & -> & ->).
  split; [intros r a Hr; now apply nth_error_grow|].
  split; [apply nth_error_None; lia|].
  split; [rewrite length_app; simpl; lia|]. auto.
Qed.

Lemma fill_nodata_inputs_kept_witness :
  (forall r a,
     nth_error h_one r = Some a ->
     nth_error (h_one ++ [FloatArr [[nan; 7]]; FloatArr [[7; 7]]]%float) r
     = Some a) /\
  nth_error h_one 4 = None /\
  length (h_one ++ [FloatArr [[nan; 7]]; FloatArr [[7; 7]]]%float)
  = length h_one + 2 /\
  shape (as_float (IntArr [[0; 1]]%Z)) = shape (as_float (IntArr [[-999; 7]]%Z)) /\
  shape (as_float (IntArr [[0; 0]]%Z)) = shape (as_float (IntArr [[-999; 7]]%Z)).
Proof.
  eapply (fill_nodata_inputs_kept h_one _ 0 1 2 4
           (IntArr [[0; 1]]%Z) (IntArr [[0; 0]]%Z) (IntArr [[-999; 7]]%Z)
           threshold); reflexivity.
Defined.

(** X15: on grids of one shape, when [Z] has at least one valid cell,
    [fill_nodata] returns an array every cell of which holds the value of
    some valid cell of [Z]: no value is made up. *)
Theorem fill_nodata_values_from_Z (h : heap) (X Y Z : ref)
  (xa ya za : ndarray) (thr : float) (M N : nat) :
  nth_error h X = Some xa ->
  nth_error h Y = Some ya ->
  nth_error h Z = Some za ->
  rect M N (as_float xa) -> rect M N (as_float ya) -> rect M N (as_float za) ->
  (exists i j z, cell (as_float za) i j = Some z /\ valid thr z = true) ->
  exists out oa h',
    fill_nodata X Y Z thr h = Ok (out, h') /\
    nth_error h' out = Some (FloatArr oa) /\
    forall i j v,
      cell oa i j = Some v ->
      exists k l, cell (as_float za) k l = Some v /\ valid thr v = true.
Proof.
  intros HX HY HZ RX RY RZ (i0 & j0 & z0 & Hc0 & Hv0).
  pose proof (fill_nodata_run h X Y Z xa ya za thr HX HY HZ
                (rect_shape M N _ _ RX RZ) (rect_shape M N _ _ RY RZ)) as Hrun.
  destruct (NearestFacts.cell_in_rect M N _ i0 j0 z0 RZ Hc0) as [Hi0 Hj0].
  destruct (NearestFacts.rect_cell M N _ i0 j0 RX Hi0 Hj0) as (x0 & Hx0).
  destruct (NearestFacts.rect_cell M N _ i0 j0 RY Hi0 Hj0) as (y0 & Hy0).
  destruct (UtilsSpec.samples_split _ _ _ thr M N RX RY RZ i0 j0 x0 y0 z0
              Hx0 Hy0 Hc0 Hv0) as (L & R & Hs & _).
  destruct (samples (as_float xa) (as_float ya) (as_float za) thr)
    as [|s rest] eqn:Hsam; [destruct L; discriminate|].
  cbn [filled] in Hrun.
  exists (S (length h)), (interpolated (as_float xa) (as_float ya) s rest),
    (h ++ [FloatArr (map (map (mark_eq thr)) (as_float za));
           FloatArr (interpolated (as_float xa) (as_float ya) s rest)]).
  split; [exact Hrun|]. split.
  { rewrite nth_error_app2 by lia.
    now replace (S (length h) - length h) with 1 by lia. }
  intros i j v Hv. unfold interpolated in Hv.
  apply NearestFacts.cell_map2_inv in Hv as (x & y & ->).
  pose proof (NearestFacts.nearest_from_In (x, y) rest s) as Hin.
  apply in_map_iff in Hin as (e & He & Hin).
  rewrite <- Hsam in Hin. rewrite <- He.
  destruct (In_samples_cell _ _ _ _ _ Hin) as (k & l & Hc).
  exists k, l. split; [exact Hc|].
  now apply (UtilsSpec.samples_valid (as_float xa) (as_float ya) (as_float za)).
Qed.

Lemma fill_nodata_values_from_Z_witness :
  exists out oa h',
    fill_nodata 0 1 2 threshold h_one = Ok (out, h') /\
    nth_error h' out = Some (FloatArr oa) /\
    forall i j v,
      cell oa i j = Some v ->
      exists k l,
        cell (as_float (IntArr [[-999; 7]]%Z)) k l = Some v /\
        valid threshold v = true.
Proof.
  apply (fill_nodata_values_from_Z h_one 0 1 2
           (IntArr [[0; 1]]%Z) (IntArr [[0; 0]]%Z) (IntArr [[-999; 7]]%Z)
           threshold 1 2);
    try reflexivity;
    try (split; [reflexivity | repeat constructor]).
  exists 0, 1, 7%float. split; reflexivity.
Defined.

(** X16: for a threshold that is a number, every cell of the array
    [remove_nodata] returns is not-a-number or strictly less than the
    threshold. *)
Theorem remove_nodata_below_threshold (h h' : heap) (Z out : ref)
  (za : ndarray) (oa : grid float) (thr : float) :
  nth_error h Z = Some za ->
  remove_nodata Z thr h = Ok (out, h') ->
  nth_error h' out = Some (FloatArr oa) ->
  PrimFloat.is_nan thr = false ->
  forall i j v,
    cell oa i j = Some v ->
    PrimFloat.is_nan v = true \/ PrimFloat.ltb v thr = true.
Proof.
  intros HZ H Hout Ht i j v Hv.
  rewrite (remove_nodata_run h Z za thr HZ) in H. inversion H; subst.
  rewrite nth_error_app2 in Hout by lia.
  replace (S (length h) - length h) with 1 in Hout by lia.
  inversion Hout; subst oa. rewrite cell_map in Hv.
  destruct (cell (as_float za) i j) as [z|]; [|discriminate].
  inversion Hv; subst v. unfold mark_ge.
  destruct (PrimFloat.leb thr z) eqn:E; [now left|].
  destruct (PrimFloat.is_nan z) eqn:Ez; [now left|].
  right. now apply not_leb_ltb.
Qed.

Lemma remove_nodata_below_threshold_witness :
  remove_nodata 2 15%float h0
  = Ok (4, h0 ++ [Zt; FloatArr
         [[1; 2; 3; 4; 5]; [6; 7; 8; 9; 10]; [11; 12; -999; 14; nan];
          [nan; nan; nan; -999; nan]; [nan; nan; nan; nan; nan]]%float]) /\
  (PrimFloat.is_nan 14%float = true \/ PrimFloat.ltb 14%float 15%float = true).
Proof.
  split; [reflexivity|].
  eapply (remove_nodata_below_threshold h0 _ 2 4 Zt _ 15%float
            eq_refl eq_refl eq_refl eq_refl 2 3 14%float).
  reflexivity.
Defined.

(** X17: [remove_nodata] is idempotent: applied with the same threshold
    to the array it returned, it returns an array of the same content. *)
Theorem remove_nodata_idempotent (h h1 h2 : heap) (Z o1 o2 : ref)
  (za : ndarray) (thr : float) :
  nth_error h Z = Some za ->
  remove_nodata Z thr h = Ok (o1, h1) ->
  remove_nodata o1 thr h1 = Ok (o2, h2) ->
  nth_error h2 o2 = nth_error h1 o1 /\ o2 <> o1.
Proof.
  intros HZ H1 H2.
  rewrite (remove_nodata_run h Z za thr HZ) in H1. inversion H1; subst.
  set (oa := map (map (mark_ge thr)) (as_float za)) in *.
  assert (Ho : nth_error (h ++ [za; FloatArr oa]) (S (length h))
               = Some (FloatArr oa)).
  { rewrite nth_error_app2 by lia.
    now replace (S (length h) - length h) with 1 by lia. }
  rewrite (remove_nodata_run _ _ _ thr Ho) in H2. inversion H2; subst.
  split; [|rewrite length_app; simpl; lia].
  rewrite Ho, nth_error_app2 by lia.
  replace (S (length (h ++ [za; FloatArr oa])) - length (h ++ [za; FloatArr oa]))
    with 1 by lia.
  cbn [nth_error as_float]. do 2 f_equal. unfold oa.
  rewrite map_map. apply map_ext. intros r. rewrite map_map.
  apply map_ext. intros z. unfold mark_ge.
  destruct (PrimFloat.leb thr z) eqn:E; [|now rewrite E].
  now destruct (PrimFloat.leb thr nan).
Qed.

Lemma remove_nodata_idempotent_witness :
  nth_error
    (h_one ++ [IntArr [[-999; 7]]%Z; FloatArr [[-999; nan]]%float;
               FloatArr [[-999; nan]]%float; FloatArr [[-999; nan]]%float]) 6
  = nth_error
      (h_one ++ [IntArr [[-999; 7]]%Z; FloatArr [[-999; nan]]%float]) 4
  /\ 6 <> 4.
Proof.
  eapply (remove_nodata_idempotent h_one _ _ 2 4 6 (IntArr [[-999; 7]]%Z)
           0%float); reflexivity.
Defined.

(** X18: with a threshold that is not-a-number, [remove_nodata] marks
    nothing: the array it returns is the float64 copy of [Z]. *)
Theorem remove_nodata_nan_threshold (h h' : heap) (Z out : ref)
  (za : ndarray) (thr : float) :
  nth_error h Z = Some za ->
  PrimFloat.is_nan thr = true ->
  remove_nodata Z thr h = Ok (out, h') ->
  nth_error h' out = Some (FloatArr (as_float za)).
Proof.
  intros HZ Ht H.
  rewrite (remove_nodata_run h Z za thr HZ) in H. inversion H; subst.
  rewrite nth_error_app2 by lia.
  replace (S (length h) - length h) with 1 by lia.
  cbn [nth_error]. do 2 f_equal.
  rewrite <- (map_id (as_float za)) at 2. apply map_ext. intros r.
  rewrite <- (map_id r) at 2. apply map_ext. intros z.
  unfold mark_ge. now rewrite (leb_nan_l thr z Ht).
Qed.

Lemma remove_nodata_nan_threshold_witness :
  nth_error
    (h_one ++ [IntArr [[-999; 7]]%Z; FloatArr [[-999; 7]]%float]) 4
  = Some (FloatArr (as_float (IntArr [[-999; 7]]%Z))).
Proof.
  eapply (remove_nodata_nan_threshold h_one _ 2 4 (IntArr [[-999; 7]]%Z) nan);
    reflexivity.
Defined.

End UtilsMore.

Module OffsetFacts.
Import Np Offset NpFacts RunFacts.
Local Open Scope heap_scope.

Lemma length_ravel {A : Type} (M N : nat) (a : grid A) :
  rect M N a -> length (ravel a) = M * N.
Proof.
  intros [La Fa]. subst M. unfold ravel.
  induction Fa as [|r a Hr _ IH]; simpl; [reflexivity|].
  rewrite length_app, IH, Hr. reflexivity.
Qed.

Lemma combine_app_eq {A B : Type} (l1 l2 : list A) (k1 k2 : list B) :
  length l1 = length k1 ->
  combine (l1 ++ l2) (k1 ++ k2) = combine l1 k1 ++ combine l2 k2.
Proof.
  revert k1. induction l1 as [|x l1 IH]; intros [|y k1] H; simpl in *;
    try discriminate; [reflexivity|].
  f_equal. apply IH. lia.
Qed.

(** An elementwise operation on the flattened grids is the flattening of
    the operation on the grids. *)
Lemma ravel_map2 {A B C : Type} (f : A -> B -> C) (M N : nat)
  (a : grid A) (b : grid B) :
  rect M N a -> rect M N b ->
  map2 f (ravel a) (ravel b) = ravel (map2 (map2 f) a b).
Proof.
  intros [La Fa] [Lb Fb]. subst M. revert b Lb Fb. unfold ravel.
  induction Fa as [|ra a Hra _ IH]; intros [|rb b] Lb Fb; simpl in *;
    try discriminate; [reflexivity|].
  inversion Fb as [|? ? Hrb Fb']; subst.
  change (map (fun p : list A * list B => map2 f (fst p) (snd p))
            (combine a b)) with (map2 (map2 f) a b).
  rewrite <- IH by (auto; lia).
  unfold map2. rewrite combine_app_eq by congruence.
  now rewrite map_app.
Qed.

Lemma chunks_ravel {A : Type} (N : nat) (a : grid A) :
  Forall (fun r => length r = N) a ->
  chunks (length a) N (ravel a) = a.
Proof.
  unfold ravel. induction 1 as [|r a Hr _ IH]; simpl; [reflexivity|].
  rewrite firstn_app, skipn_app, Hr, Nat.sub_diag. simpl.
  rewrite <- Hr at 1 3. rewrite firstn_all, skipn_all, app_nil_r. simpl.
  now rewrite IH.
Qed.

Lemma chunks_rect {A : Type} (M N : nat) :
  forall l : list A,
    length l = M * N ->
    rect M N (chunks M N l) /\ ravel (chunks M N l) = l.
Proof.
  unfold rect, ravel. induction M as [|M IH]; intros l Hl; simpl in *.
  - destruct l; [auto | discriminate].
  - destruct (IH (skipn N l)) as ((L & F) & R).
    { rewrite length_skipn. lia. }
    split; [split|].
    + now rewrite L.
    + constructor; [|exact F]. rewrite length_firstn. lia.
    + rewrite R. apply firstn_skipn.
Qed.

(** Reshaping the flattening of a grid to the shape of a grid of the
    same rows and columns gives the grid back. *)
Lemma reshape_ravel {A : Type} (M N nx : nat) (g : grid A) :
  rect M N g -> (0 < M -> nx = N) ->
  reshape M nx (ravel g) = Ok g.
Proof.
  intros R Hnx. unfold reshape. destruct M as [|M].
  - destruct R as [L _]. destruct g; [reflexivity | discriminate].
  - rewrite (Hnx ltac:(lia)), (length_ravel (S M) N g R), Nat.eqb_refl.
    destruct R as [L F]. rewrite <- L. now rewrite chunks_ravel.
Qed.

Lemma shape_rect {A : Type} (M N : nat) (a : grid A) :
  rect M N a -> fst (shape a) = M /\ (0 < M -> snd (shape a) = N).
Proof.
  intros [L F]. unfold shape. simpl. split; [exact L|].
  destruct a as [|r a]; simpl in *; [lia|]. intros _. now inversion F.
Qed.

Lemma broadcast2_same (f : float -> float -> float) (xs ys : list float) :
  length xs = length ys -> broadcast2 f xs ys = Ok (map2 f xs ys).
Proof. intros H. unfold broadcast2. now rewrite H, Nat.eqb_refl. Qed.

Lemma rect_map_grid {A B : Type} (f : A -> B) (M N : nat) (a : grid A) :
  rect M N a -> rect M N (map (map f) a).
Proof.
  intros [La Fa]. split; [now rewrite length_map|].
  apply Forall_map. eapply Forall_impl; [|exact Fa].
  intros r Hr. simpl. now rewrite length_map.
Qed.

Lemma residual_rect (a b c : float) (M N : nat) (xf yf zf : grid float) :
  rect M N xf -> rect M N yf -> rect M N zf ->
  rect M N (residual a b c xf yf zf).
Proof.
  intros RX RY RZ. unfold residual.
  apply rect_map2; [exact RZ|]. apply rect_map_grid.
  apply rect_map2; now apply rect_map_grid.
Qed.

Lemma plane_ravel (a b c : float) (M N : nat) (xf yf : grid float) :
  rect M N xf -> rect M N yf ->
  plane (ravel xf, ravel yf) a b c
  = Ok (ravel (map (map (fun v => PrimFloat.add v c))
                 (map2 (map2 PrimFloat.add)
                    (map (map (fun v => PrimFloat.mul a v)) xf)
                    (map (map (fun v => PrimFloat.mul b v)) yf)))).
Proof.
  intros RX RY. unfold plane.
  rewrite broadcast2_same
    by (rewrite !length_map, (length_ravel M N xf RX),
          (length_ravel M N yf RY); reflexivity).
  cbn [bind]. rewrite <- !ravel_map.
  rewrite (ravel_map2 PrimFloat.add M N) by now apply rect_map_grid.
  now rewrite ravel_map.
Qed.

End OffsetFacts.

Module OffsetMore.
Import Np Offset NpFacts RunFacts OffsetFacts TestGrids.
Local Open Scope heap_scope.

(** X19: on grids of one shape M x N, when the fit returns the parameters
    (a, b, c), [remove_offset] returns them with a new M x N array whose
    cell (i, j) is [z - (a * x + b * y + c)] for the cells x, y, z of the
    three grids, and changes no array of the store. *)
Theorem remove_offset_residual
  (curve_fit :
     (list float * list float -> float -> float -> float ->
      result (list float)) ->
     list float * list float -> list float -> result params)
  (h : heap) (X Y Z : ref) (xa ya za : ndarray) (M N : nat) (a b c : float) :
  nth_error h X = Some xa ->
  nth_error h Y = Some ya ->
  nth_error h Z = Some za ->
  rect M N (as_float xa) -> rect M N (as_float ya) -> rect M N (as_float za) ->
  curve_fit plane (ravel (as_float xa), ravel (as_float ya))
    (ravel (as_float za)) = Ok (a, b, c) ->
  exists oa,
    remove_offset curve_fit X Y Z h
    = Ok ((a, b, c, length h), h ++ [FloatArr oa]) /\
    rect M N oa /\
    forall i j x y z,
      cell (as_float xa) i j = Some x ->
      cell (as_float ya) i j = Some y ->
      cell (as_float za) i j = Some z ->
      cell oa i j = Some (z - (a * x + b * y + c))%float.
Proof.
  intros HX HY HZ RX RY RZ Hfit.
  exists (residual a b c (as_float xa) (as_float ya) (as_float za)).
  split; [|split].
  - unfold remove_offset.
    rewrite (bindM_ok _ _ _ _ _ (load_run _ _ _ HX)).
    rewrite (bindM_ok _ _ _ _ _ (load_run _ _ _ HY)).
    rewrite (bindM_ok _ _ _ _ _ (load_run _ _ _ HZ)).
    destruct (shape_rect M N _ RZ) as [Hny Hnx].
    destruct (shape (as_float za)) as [ny nx]. simpl in Hny, Hnx. subst ny.
    unfold bindM, lift. rewrite Hfit, (plane_ravel a b c M N _ _ RX RY).
    rewrite broadcast2_same
      by (rewrite (length_ravel M N _ RZ); symmetry;
          apply (length_ravel M N); apply rect_map_grid;
          apply rect_map2; now apply rect_map_grid).
    rewrite (ravel_map2 PrimFloat.sub M N _ _ RZ)
      by (apply rect_map_grid; apply rect_map2; now apply rect_map_grid).
    fold (residual a b c (as_float xa) (as_float ya) (as_float za)).
    rewrite (reshape_ravel M N nx _
               (residual_rect a b c M N _ _ _ RX RY RZ) Hnx).
    reflexivity.
  - now apply residual_rect.
  - intros i j x y z Hx Hy Hz. unfold residual.
    apply cell_map2; [exact Hz|]. rewrite cell_map.
    rewrite (cell_map2 PrimFloat.add
               (map (map (fun v => PrimFloat.mul a v)) (as_float xa))
               (map (map (fun v => PrimFloat.mul b v)) (as_float ya))
               i j (a * x)%float (b * y)%float);
      [reflexivity | now rewrite cell_map, Hx | now rewrite cell_map, Hy].
Qed.

(** The fit returning (1, 0, -1) on a 1 x 2 grid. *)
Lemma remove_offset_residual_witness :
  exists oa,
    remove_offset (fun _ _ _ => Ok (1, 0, -1)%float) 0 1 2 h_one
    = Ok ((1, 0, -1, length h_one)%float, h_one ++ [FloatArr oa]) /\
    rect 1 2 oa /\
    forall i j x y z,
      cell (as_float (IntArr [[0; 1]]%Z)) i j = Some x ->
      cell (as_float (IntArr [[0; 0]]%Z)) i j = Some y ->
      cell (as_float (IntArr [[-999; 7]]%Z)) i j = Some z ->
      cell oa i j = Some (z - (1 * x + 0 * y + -1))%float.
Proof.
  apply (remove_offset_residual (fun _ _ _ => Ok (1, 0, -1)%float)
           h_one 0 1 2 (IntArr [[0; 1]]%Z) (IntArr [[0; 0]]%Z)
           (IntArr [[-999; 7]]%Z) 1 2 1 0 (-1));
    try reflexivity;
    (split; [reflexivity | repeat (constructor; try reflexivity)]).
Defined.

(** X20: a flat array of M * N elements reshapes to an M x N grid whose
    flattening is the array again, and that grid reshapes from its
    flattening to itself; any other length raises [ValueError]. *)
Theorem reshape_ravel_roundtrip {A : Type} (M N : nat) (l : list A) :
  (length l = M * N ->
   exists g,
     reshape M N l = Ok g /\ rect M N g /\ ravel g = l /\
     reshape M N (ravel g) = Ok g) /\
  (length l <> M * N -> reshape M N l = Raise ValueError).
Proof.
  split; intros Hl; unfold reshape.
  - destruct (chunks_rect M N l Hl) as (R & Hr).
    exists (chunks M N l). rewrite Hr.
    apply Nat.eqb_eq in Hl. rewrite Hl. auto.
  - apply Nat.eqb_neq in Hl. now rewrite Hl.
Qed.

Lemma reshape_ravel_roundtrip_witness :
  (exists g,
     reshape 2 3 [1; 2; 3; 4; 5; 6]%Z = Ok g /\ rect 2 3 g /\
     ravel g = [1; 2; 3; 4; 5; 6]%Z /\ reshape 2 3 (ravel g) = Ok g) /\
  reshape 2 2 [1; 2; 3; 4; 5; 6]%Z = Raise ValueError.
Proof.
  split.
  - apply (proj1 (reshape_ravel_roundtrip 2 3 [1; 2; 3; 4; 5; 6]%Z)).
    reflexivity.
  - apply (proj2 (reshape_ravel_roundtrip 2 2 [1; 2; 3; 4; 5; 6]%Z)).
    simpl. lia.
Defined.

End OffsetMore.
